(** * ifcdot: a shallow embedding of [write_dot] and [cluster]

    The program walks an IFC model three times (objects, relationships,
    spatial roots), writes GraphViz statements to one output file and returns
    a fresh set of entity ids, the next round's interest.  The embedding keeps
    the two effects of the Python code explicit: a store of mutable [set]
    objects addressed by reference, and the sequence of [dot.write] calls.
    Exceptions are results of the computation; the store and the text written
    before an exception stay observable. *)

From Stdlib Require Import Ascii String.
From stdpp Require Import gmap strings list pretty.

Set Default Proof Using "Type".

Local Open Scope string_scope.
Local Open Scope list_scope.

(** ** Python data *)

(** An [entity_instance] handle: what [.id()] and [.is_a()] return. *)
Record entity := Entity { id : Z; is_a_name : string }.

(** The value of an entity attribute: unset, one instance, or an aggregate. *)
Inductive value :=
| PyNone
| PyInstance (e : entity)
| PyTuple (es : list entity).

(** An instance as stored in the file: its handle and its attribute table. *)
Record instance := Instance { self : entity; attributes : list (string * value) }.

(** The local variable [related_objects]: either an attribute value taken as
    it is, or a Python list literal built by the code. *)
Inductive objects :=
| Attr (v : value)
| Listed (vs : list value).

Inductive exn := AttributeError | TypeError | KeyError | RecursionError.

Inductive result (A : Type) :=
| Ok (a : A)
| Raise (e : exn).
Arguments Ok {A} a.
Arguments Raise {A} e.

(** ** Output statements

    Every [dot.write] call is recorded as one statement.  A statement that
    prints a registry label also records the id used as the registry key;
    [render] gives the text the call writes. *)
Inductive stmt :=
| Line (s : string)
| NodeStmt (n : Z) (label fill : string)
| EdgeStmt (a b : Z) (label_a label_b weight style : string)
| SubgraphStmt (n : Z)
| MemberStmt (n : Z) (label : string).

Definition nl : string := String "010"%char EmptyString.
Definition dq : string := String "034"%char EmptyString.

Definition render (s : stmt) : string :=
  match s with
  | Line s => s +:+ nl
  | NodeStmt _ label fill =>
      dq +:+ label +:+ dq +:+ " [color=" +:+ dq +:+ fill +:+ dq +:+ ",style=filled];" +:+ nl
  | EdgeStmt _ _ la lb weight style =>
      dq +:+ la +:+ dq +:+ "--" +:+ dq +:+ lb +:+ dq +:+ " ["
         +:+ "weight=" +:+ weight +:+ ",style=" +:+ style +:+ "];" +:+ nl
  | SubgraphStmt n => "subgraph id_" +:+ pretty n +:+ " {" +:+ nl
  | MemberStmt _ label => dq +:+ label +:+ dq +:+ ";" +:+ nl
  end.

Definition stmt_ids (s : stmt) : list Z :=
  match s with
  | Line _ => []
  | NodeStmt n _ _ => [n]
  | EdgeStmt a b _ _ _ _ => [a; b]
  | SubgraphStmt n => [n]
  | MemberStmt n _ => [n]
  end.

Definition stmt_labels (s : stmt) : list string :=
  match s with
  | Line _ | SubgraphStmt _ => []
  | NodeStmt _ l _ => [l]
  | EdgeStmt _ _ la lb _ _ => [la; lb]
  | MemberStmt _ l => [l]
  end.

Definition is_node_stmt (s : stmt) : bool :=
  match s with NodeStmt _ _ _ => true | _ => false end.
Definition is_edge_stmt (s : stmt) : bool :=
  match s with EdgeStmt _ _ _ _ _ _ => true | _ => false end.
Definition is_cluster_stmt (s : stmt) : bool :=
  match s with SubgraphStmt _ | MemberStmt _ _ => true | _ => false end.

(** ** The state and exception monad *)

Definition loc := nat.

Record state := State { sets : gmap loc (gset Z); dot : list stmt }.

Definition M (A : Type) : Type := state → result A * state.

Definition ret {A} (a : A) : M A := λ σ, (Ok a, σ).
Definition raise {A} (e : exn) : M A := λ σ, (Raise e, σ).
Definition bind {A B} (m : M A) (k : A → M B) : M B :=
  λ σ, match m σ with
       | (Ok a, σ') => k a σ'
       | (Raise e, σ') => (Raise e, σ')
       end.

Notation "'let!' x ':=' m 'in' k" := (bind m (λ x, k))
  (at level 10, x name, m at level 100, k at level 200).
Notation "m '>>' k" := (bind m (λ _, k))
  (at level 100, k at level 200, right associativity).

(** [dot = open(path_dot, "w")]: the file is truncated. *)
Definition open_dot : M unit := λ σ, (Ok tt, State (sets σ) []).
(** [dot.write(...)] *)
Definition dot_write (s : stmt) : M unit := λ σ, (Ok tt, State (sets σ) (dot σ ++ [s])).

(** [s.copy()]: a new set object with the same elements. *)
Definition set_copy (l : loc) : M loc := λ σ,
  match sets σ !! l with
  | Some X => let l' := fresh (dom (sets σ)) in (Ok l', State (<[l' := X]> (sets σ)) (dot σ))
  | None => (Raise TypeError, σ)
  end.
(** [s.add(x)] *)
Definition set_add (l : loc) (x : Z) : M unit := λ σ,
  match sets σ !! l with
  | Some X => (Ok tt, State (<[l := X ∪ {[x]}]> (sets σ)) (dot σ))
  | None => (Raise TypeError, σ)
  end.
(** [x in s] *)
Definition set_contains (l : loc) (x : Z) : M bool := λ σ,
  match sets σ !! l with
  | Some X => (Ok (bool_decide (x ∈ X)), σ)
  | None => (Raise TypeError, σ)
  end.
(** The truth value of a set: it is not empty. *)
Definition set_bool (l : loc) : M bool := λ σ,
  match sets σ !! l with
  | Some X => (Ok (negb (bool_decide (X = ∅))), σ)
  | None => (Raise TypeError, σ)
  end.

(** [s1 == s2] on two sets *)
Definition set_eq (l1 l2 : loc) : M bool := λ σ,
  match sets σ !! l1, sets σ !! l2 with
  | Some X, Some Y => (Ok (bool_decide (X = Y)), σ)
  | _, _ => (Raise TypeError, σ)
  end.

(** [d[k]] *)
Definition dict_get (d : gmap Z string) (k : Z) : M string :=
  match d !! k with
  | Some v => ret v
  | None => raise KeyError
  end.

(** [v.id()] *)
Definition py_id (v : value) : M Z :=
  match v with
  | PyInstance e => ret (id e)
  | _ => raise AttributeError
  end.

(** Attribute access [inst.name]. *)
Fixpoint assoc (name : string) (l : list (string * value)) : option value :=
  match l with
  | [] => None
  | (k, v) :: l' => if String.eqb k name then Some v else assoc name l'
  end.

Definition getattr (i : instance) (name : string) : M value :=
  match assoc name (attributes i) with
  | Some v => ret v
  | None => raise AttributeError
  end.

(** [for x in xs: body] *)
Fixpoint for_each {A} (xs : list A) (body : A → M unit) : M unit :=
  match xs with
  | [] => ret tt
  | x :: xs' => body x >> for_each xs' body
  end.

(** A [for] loop that updates a local dictionary. *)
Fixpoint for_fold {A D} (xs : list A) (d : D) (body : D → A → M D) : M D :=
  match xs with
  | [] => ret d
  | x :: xs' => let! d' := body d x in for_fold xs' d' body
  end.

(** What [for x in related_objects] iterates over. *)
Definition iter (o : objects) : M (list value) :=
  match o with
  | Listed vs => ret vs
  | Attr (PyTuple es) => ret (PyInstance <$> es)
  | Attr _ => raise TypeError
  end.

(** [interest and not x in interest] *)
Definition not_of_interest (interest : loc) (x : Z) : M bool :=
  let! nonempty := set_bool interest in
  if nonempty then
    let! member := set_contains interest x in ret (negb member)
  else ret false.

(** Whether a string contains the character [=]. *)
Fixpoint has_eq (s : string) : bool :=
  match s with
  | EmptyString => false
  | String c s' => Ascii.eqb c "="%char || has_eq s'
  end.

(** ** A fragment of the IFC4 schema and three small models *)

(** Each entity type with its direct supertype. *)
Definition ifc4_supertype : list (string * string) :=
  [ ("IfcObjectDefinition", "IfcRoot"); ("IfcRelationship", "IfcRoot");
    ("IfcObject", "IfcObjectDefinition"); ("IfcTypeObject", "IfcObjectDefinition");
    ("IfcTypeProduct", "IfcTypeObject"); ("IfcElementType", "IfcTypeProduct");
    ("IfcBuildingElementType", "IfcElementType"); ("IfcWallType", "IfcBuildingElementType");
    ("IfcProduct", "IfcObject"); ("IfcGroup", "IfcObject");
    ("IfcElement", "IfcProduct"); ("IfcSpatialElement", "IfcProduct");
    ("IfcStructuralItem", "IfcProduct");
    ("IfcSpatialStructureElement", "IfcSpatialElement");
    ("IfcSite", "IfcSpatialStructureElement"); ("IfcBuilding", "IfcSpatialStructureElement");
    ("IfcSpace", "IfcSpatialStructureElement");
    ("IfcBuildingElement", "IfcElement"); ("IfcVirtualElement", "IfcElement");
    ("IfcElementAssembly", "IfcElement"); ("IfcFeatureElement", "IfcElement");
    ("IfcFeatureElementSubtraction", "IfcFeatureElement");
    ("IfcOpeningElement", "IfcFeatureElementSubtraction");
    ("IfcWall", "IfcBuildingElement"); ("IfcSlab", "IfcBuildingElement");
    ("IfcDoor", "IfcBuildingElement"); ("IfcWindow", "IfcBuildingElement");
    ("IfcRelDecomposes", "IfcRelationship"); ("IfcRelConnects", "IfcRelationship");
    ("IfcRelAssigns", "IfcRelationship"); ("IfcRelDefines", "IfcRelationship");
    ("IfcRelAggregates", "IfcRelDecomposes"); ("IfcRelNests", "IfcRelDecomposes");
    ("IfcRelVoidsElement", "IfcRelDecomposes");
    ("IfcRelAssignsToGroup", "IfcRelAssigns");
    ("IfcRelConnectsElements", "IfcRelConnects");
    ("IfcRelConnectsStructuralMember", "IfcRelConnects");
    ("IfcRelContainedInSpatialStructure", "IfcRelConnects");
    ("IfcRelFillsElement", "IfcRelConnects"); ("IfcRelSpaceBoundary", "IfcRelConnects");
    ("IfcRelDefinesByType", "IfcRelDefines") ].

Fixpoint supertype_of (table : list (string * string)) (t : string) : option string :=
  match table with
  | [] => None
  | (k, sup) :: table' => if String.eqb k t then Some sup else supertype_of table' t
  end.

Fixpoint ifc4_is (depth : nat) (t name : string) : bool :=
  String.eqb t name
  || match depth with
     | O => false
     | S depth =>
         match supertype_of ifc4_supertype t with
         | Some sup => ifc4_is depth sup name
         | None => false
         end
     end.

Definition ifc4 (t name : string) : bool := ifc4_is 12 t name.

Definition site1 := Entity 1 "IfcSite".
Definition building2 := Entity 2 "IfcBuilding".
Definition wall3 := Entity 3 "IfcWall".
Definition door4 := Entity 4 "IfcDoor".
Definition opening5 := Entity 5 "IfcOpeningElement".
Definition virtual6 := Entity 6 "IfcVirtualElement".
Definition slab7 := Entity 7 "IfcSlab".
Definition window8 := Entity 8 "IfcWindow".

(** A site with one building holding a wall, a door in an opening of the
    wall and a virtual element; a slab and a window connected to each other
    and to nothing else; one relationship of a kind the program ignores. *)
Definition house : list instance :=
  [ Instance site1 []; Instance building2 []; Instance wall3 [];
    Instance door4 []; Instance opening5 []; Instance virtual6 [];
    Instance slab7 []; Instance window8 [];
    Instance (Entity 10 "IfcRelAggregates")
      [("RelatingObject", PyInstance site1); ("RelatedObjects", PyTuple [building2])];
    Instance (Entity 11 "IfcRelContainedInSpatialStructure")
      [("RelatingStructure", PyInstance building2);
       ("RelatedElements", PyTuple [wall3; door4; virtual6])];
    Instance (Entity 12 "IfcRelVoidsElement")
      [("RelatingBuildingElement", PyInstance wall3);
       ("RelatedOpeningElement", PyInstance opening5)];
    Instance (Entity 13 "IfcRelFillsElement")
      [("RelatingOpeningElement", PyInstance opening5);
       ("RelatedBuildingElement", PyInstance door4)];
    Instance (Entity 14 "IfcRelConnectsElements")
      [("RelatingElement", PyInstance slab7); ("RelatedElement", PyInstance window8)];
    Instance (Entity 15 "IfcRelDefinesByType") [] ].

Definition house_decomposition (e : entity) : list entity :=
  if (id e =? 1)%Z then [building2]
  else if (id e =? 2)%Z then [wall3; door4; virtual6]
  else if (id e =? 3)%Z then [opening5]
  else [].

(** The first scenario of the specification: two objects and one
    aggregation. *)
Definition pair : list instance :=
  [ Instance wall3 []; Instance slab7 [];
    Instance (Entity 20 "IfcRelAggregates")
      [("RelatingObject", PyInstance wall3); ("RelatedObjects", PyTuple [slab7])] ].

Definition no_decomposition (e : entity) : list entity := [].

(** A site aggregating a type object, which is an [IfcObjectDefinition] but
    not an [IfcObject]. *)
Definition walltype2 := Entity 2 "IfcWallType".

Definition typed_site : list instance :=
  [ Instance site1 []; Instance walltype2 [];
    Instance (Entity 3 "IfcRelAggregates")
      [("RelatingObject", PyInstance site1); ("RelatedObjects", PyTuple [walltype2])] ].

Definition typed_site_decomposition (e : entity) : list entity :=
  if (id e =? 1)%Z then [walltype2] else [].

(** A store holding one set, the interest set, at location 0, and an empty
    output. *)
Definition store_with (I : gset Z) : state := State {[ 0%nat := I ]} [].

(** A decomposition in which every entity is its own child. *)
Definition self_decomposition (e : entity) : list entity := [e].

(** The height of an entity in the decomposition of [house]. *)
Definition house_rank (e : entity) : nat :=
  if (id e =? 1)%Z then 3 else if (id e =? 2)%Z then 2 else if (id e =? 3)%Z then 1 else 0.


(** ** The program *)

Section ifcdot.

(** The IFC schema: [schema t name] holds when the entity type [t] is [name]
    or one of its subtypes; this is what [is_a(name)] asks of the schema. *)
Variable schema : string → string → bool.

(** [ifcopenshell.util.element.get_decomposition] *)
Variable get_decomposition : entity → list entity.

(** The interpreter's bound on nested calls. *)
Variable recursion_limit : nat.

Definition is_a (e : entity) (name : string) : bool := schema (is_a_name e) name.

(** [ifc_file.by_type(name)] *)
Definition by_type (ifc_file : list instance) (name : string) : list instance :=
  filter (λ i, is_a (self i) name) ifc_file.

(** The fill colour chosen by the [if]/[elif] chain of the first loop. *)
Definition fill_of (ifc_object : entity) : string :=
  if is_a ifc_object "IfcGroup" then "#ff99ff"
  else if is_a ifc_object "IfcSpatialElement" then "#ff99cc"
  else if is_a ifc_object "IfcElementAssembly" then "#ccff99"
  else if is_a ifc_object "IfcOpeningElement" then "#cc99ff"
  else if is_a ifc_object "IfcDoor" || is_a ifc_object "IfcWindow" then "#99ccff"
  else if is_a ifc_object "IfcElement" then "#9999ff"
  else if is_a ifc_object "IfcStructuralItem" then "#99ff99"
  else "#ff9999".

(** ["#" + str(ifc_object.id()) + "=" + str(ifc_object.is_a())] *)
Definition label_of (ifc_object : entity) : string :=
  "#" +:+ pretty (id ifc_object) +:+ "=" +:+ is_a_name ifc_object.

(** The body of the loop over [by_type("IfcObject")]. *)
Definition write_object (interest : loc) (ifc_objects : gmap Z string)
    (ifc_object : entity) : M (gmap Z string) :=
  if is_a ifc_object "IfcVirtualElement" then ret ifc_objects
  else
    let ifc_objects := <[id ifc_object := label_of ifc_object]> ifc_objects in
    let! skip := not_of_interest interest (id ifc_object) in
    if skip then ret ifc_objects
    else
      let fill := fill_of ifc_object in
      let! label := dict_get ifc_objects (id ifc_object) in
      dot_write (NodeStmt (id ifc_object) label fill) >>
      ret ifc_objects.

(** The four local variables set by the chain of [if]s over the relationship
    kinds. *)
Record shape := Shape {
  relating_object : value;
  related_objects : objects;
  weight : string;
  style : string
}.

Definition decompose (ifc_rel : instance) : M shape :=
  let s := Shape PyNone (Listed []) "1" "solid" in
  let! s :=
    if is_a (self ifc_rel) "IfcRelAggregates" then
      let! relating := getattr ifc_rel "RelatingObject" in
      let! related := getattr ifc_rel "RelatedObjects" in
      ret (Shape relating (Attr related) "9" (style s))
    else ret s in
  let! s :=
    if is_a (self ifc_rel) "IfcRelNests" then
      let! relating := getattr ifc_rel "RelatingObject" in
      let! related := getattr ifc_rel "RelatedObjects" in
      ret (Shape relating (Attr related) "9" (style s))
    else ret s in
  let! s :=
    if is_a (self ifc_rel) "IfcRelAssignsToGroup" then
      let! relating := getattr ifc_rel "RelatingGroup" in
      let! related := getattr ifc_rel "RelatedObjects" in
      ret (Shape relating (Attr related) (weight s) (style s))
    else ret s in
  let! s :=
    if is_a (self ifc_rel) "IfcRelConnectsElements" then
      let! relating := getattr ifc_rel "RelatingElement" in
      let! related := getattr ifc_rel "RelatedElement" in
      ret (Shape relating (Listed [related]) "9" "dashed")
    else ret s in
  let! s :=
    if is_a (self ifc_rel) "IfcRelConnectsStructuralMember" then
      let! relating := getattr ifc_rel "RelatingStructuralMember" in
      let! related := getattr ifc_rel "RelatedStructuralConnection" in
      ret (Shape relating (Listed [related]) (weight s) (style s))
    else ret s in
  let! s :=
    if is_a (self ifc_rel) "IfcRelContainedInSpatialStructure" then
      let! relating := getattr ifc_rel "RelatingStructure" in
      let! related := getattr ifc_rel "RelatedElements" in
      ret (Shape relating (Attr related) (weight s) (style s))
    else ret s in
  let! s :=
    if is_a (self ifc_rel) "IfcRelFillsElement" then
      let! relating := getattr ifc_rel "RelatingOpeningElement" in
      let! related := getattr ifc_rel "RelatedBuildingElement" in
      ret (Shape relating (Listed [related]) "9" (style s))
    else ret s in
  let! s :=
    if is_a (self ifc_rel) "IfcRelVoidsElement" then
      let! relating := getattr ifc_rel "RelatingBuildingElement" in
      let! related := getattr ifc_rel "RelatedOpeningElement" in
      ret (Shape relating (Listed [related]) "9" (style s))
    else ret s in
  if is_a (self ifc_rel) "IfcRelSpaceBoundary" then
    let! relating := getattr ifc_rel "RelatingSpace" in
    let! related := getattr ifc_rel "RelatedBuildingElement" in
    ret (Shape relating (Listed [related]) "9" "dotted")
  else ret s.

(** The interest filter and the edge statement: the code under the test that
    both ends are keys of [ifc_objects]. *)
Definition write_candidate (ifc_objects : gmap Z string) (interest new_interest : loc)
    (a b : Z) (weight style : string) : M unit :=
  let emit :=
    let! label_a := dict_get ifc_objects a in
    let! label_b := dict_get ifc_objects b in
    dot_write (EdgeStmt a b label_a label_b weight style) in
  let! nonempty := set_bool interest in
  if nonempty then
    let! a_in := set_contains interest a in
    let! b_in := set_contains interest b in
    if negb a_in && negb b_in then ret tt
    else if a_in && negb b_in then set_add new_interest b
    else if b_in && negb a_in then set_add new_interest a
    else emit
  else emit.

(** The test [relating_object.id() in ifc_objects and related_object.id() in
    ifc_objects], evaluated left to right; when it holds, the two ids. *)
Definition registered_ends (ifc_objects : gmap Z string) (s : shape)
    (related_object : value) : M (option (Z * Z)) :=
  let! a := py_id (relating_object s) in
  if bool_decide (a ∈ dom ifc_objects) then
    let! b := py_id related_object in
    if bool_decide (b ∈ dom ifc_objects) then ret (Some (a, b)) else ret None
  else ret None.

(** The body of [for related_object in related_objects]. *)
Definition write_edge (ifc_objects : gmap Z string) (interest new_interest : loc)
    (s : shape) (related_object : value) : M unit :=
  let! ends := registered_ends ifc_objects s related_object in
  match ends with
  | Some (a, b) =>
      write_candidate ifc_objects interest new_interest a b (weight s) (style s)
  | None => ret tt
  end.

(** The body of the loop over [by_type("IfcRelationship")]. *)
Definition write_relationship (ifc_objects : gmap Z string) (interest new_interest : loc)
    (ifc_rel : instance) : M unit :=
  let! s := decompose ifc_rel in
  let! related := iter (related_objects s) in
  for_each related (write_edge ifc_objects interest new_interest s).

Fixpoint cluster (depth : nat) (ifc_object : entity) (ifc_objects : gmap Z string)
    (interest : loc) : M unit :=
  match depth with
  | O => raise RecursionError
  | S depth =>
      if is_a ifc_object "IfcVirtualElement" then ret tt
      else
        let! skip := not_of_interest interest (id ifc_object) in
        if skip then ret tt
        else
          let children := get_decomposition ifc_object in
          match children with
          | [] => ret tt
          | _ =>
              dot_write (SubgraphStmt (id ifc_object)) >>
              dot_write (Line "cluster=true;") >>
              let! label := dict_get ifc_objects (id ifc_object) in
              dot_write (MemberStmt (id ifc_object) label) >>
              for_each children (λ child,
                if is_a child "IfcVirtualElement" then ret tt
                else
                  let! skip := not_of_interest interest (id child) in
                  if skip then ret tt
                  else
                    let! label := dict_get ifc_objects (id child) in
                    dot_write (MemberStmt (id child) label) >>
                    cluster depth child ifc_objects interest) >>
              dot_write (Line "}")
          end
  end.

Definition write_objects (ifc_file : list instance) (interest : loc) : M (gmap Z string) :=
  for_fold (self <$> by_type ifc_file "IfcObject") ∅ (write_object interest).

Definition write_relationships (ifc_file : list instance) (ifc_objects : gmap Z string)
    (interest new_interest : loc) : M unit :=
  for_each (by_type ifc_file "IfcRelationship")
    (write_relationship ifc_objects interest new_interest).

Definition write_clusters (ifc_file : list instance) (ifc_objects : gmap Z string)
    (interest : loc) : M unit :=
  for_each (self <$> by_type ifc_file "IfcSite")
    (λ ifc_object, cluster recursion_limit ifc_object ifc_objects interest).

Definition write_dot (ifc_file : list instance) (interest : loc) : M loc :=
  let! new_interest := set_copy interest in
  open_dot >>
  dot_write (Line "strict graph G {") >>
  dot_write (Line "graph [overlap=false,splines=true,rankdir=LR];") >>
  let! ifc_objects := write_objects ifc_file interest in
  write_relationships ifc_file ifc_objects interest new_interest >>
  write_clusters ifc_file ifc_objects interest >>
  dot_write (Line "}") >>
  ret new_interest.

(** ** Definitions that follow the specification *)

(** The caller's loop of the docstring: call [write_dot] again with the set
    it returned until the returned set equals the set passed in.  The last
    call is the one whose result did not grow; [rounds] bounds the number of
    further calls. *)
Fixpoint expand (rounds : nat) (ifc_file : list instance) (interest : loc) : M loc :=
  let! new_interest := write_dot ifc_file interest in
  let! stable := set_eq new_interest interest in
  if stable then ret new_interest
  else
    match rounds with
    | O => raise RecursionError
    | S rounds => expand rounds ifc_file new_interest
    end.

(** Two ids are adjacent in the graph of an output when an edge statement
    joins them, in either direction. *)
Definition adjacent (out : list stmt) (a b : Z) : Prop :=
  ∃ la lb w st, EdgeStmt a b la lb w st ∈ out ∨ EdgeStmt b a la lb w st ∈ out.

(** The ids of the weakly connected components of that graph met from the
    set [I]. *)
Inductive reachable (out : list stmt) (I : gset Z) : Z → Prop :=
| reachable_start x : x ∈ I → reachable out I x
| reachable_step a b : reachable out I a → adjacent out a b → reachable out I b.

Definition node_or_edge (s : stmt) : bool := is_node_stmt s || is_edge_stmt s.

(** The node and edge statements of [final] are those of [full] all of whose
    ids are reachable from [I]. *)
Definition restricted_to_reachable (full : list stmt) (I : gset Z)
    (final : list stmt) : Prop :=
  ∀ s, node_or_edge s = true →
       (s ∈ final ↔ s ∈ full ∧ ∀ n, n ∈ stmt_ids s → reachable full I n).

(** The classifier as the specification words it: an ordered list of type
    names and categories, the first matching entry wins. *)
Definition classify_chain : list (list string * string) :=
  [ (["IfcGroup"], "#ff99ff");
    (["IfcSpatialElement"], "#ff99cc");
    (["IfcElementAssembly"], "#ccff99");
    (["IfcOpeningElement"], "#cc99ff");
    (["IfcDoor"; "IfcWindow"], "#99ccff");
    (["IfcElement"], "#9999ff");
    (["IfcStructuralItem"], "#99ff99") ].

Definition default_category : string := "#ff9999".

Fixpoint first_match (chain : list (list string * string)) (node : entity) : string :=
  match chain with
  | [] => default_category
  | (names, category) :: chain' =>
      if existsb (is_a node) names then category else first_match chain' node
  end.

(** One row of the decomposition table: the kind, the attributes holding the
    relating end and the related ends, whether the related ends are a
    sequence or a single reference, whether the weight is high, the style. *)
Record row := Row {
  kind : string;
  relating_attr : string;
  related_attr : string;
  related_seq : bool;
  high_weight : bool;
  line_style : string
}.

Definition decomposition_table : list row :=
  [ Row "IfcRelAggregates" "RelatingObject" "RelatedObjects" true true "solid";
    Row "IfcRelNests" "RelatingObject" "RelatedObjects" true true "solid";
    Row "IfcRelAssignsToGroup" "RelatingGroup" "RelatedObjects" true false "solid";
    Row "IfcRelConnectsElements" "RelatingElement" "RelatedElement" false true "dashed";
    Row "IfcRelConnectsStructuralMember" "RelatingStructuralMember"
        "RelatedStructuralConnection" false false "solid";
    Row "IfcRelContainedInSpatialStructure" "RelatingStructure" "RelatedElements"
        true false "solid";
    Row "IfcRelFillsElement" "RelatingOpeningElement" "RelatedBuildingElement"
        false true "solid";
    Row "IfcRelVoidsElement" "RelatingBuildingElement" "RelatedOpeningElement"
        false true "solid";
    Row "IfcRelSpaceBoundary" "RelatingSpace" "RelatedBuildingElement"
        false true "dotted" ].

Definition row_shape (r : row) (relating related : value) : shape :=
  Shape relating
        (if related_seq r then Attr related else Listed [related])
        (if high_weight r then "9" else "1")
        (line_style r).

Definition recognized (ifc_rel : instance) : Prop :=
  ∃ r, r ∈ decomposition_table ∧ is_a (self ifc_rel) (kind r) = true.

(** ** What the three passes compute *)

(** The registry after the first loop, started from [d]. *)
Definition registry (objs : list entity) (d : gmap Z string) : gmap Z string :=
  foldl (λ d o, if is_a o "IfcVirtualElement" then d else <[id o := label_of o]> d) d objs.

Definition ifc_objects_of (ifc_file : list instance) : gmap Z string :=
  registry (self <$> by_type ifc_file "IfcObject") ∅.

(** The node statements written by the first loop for the interest set [I]. *)
Definition node_stmts (I : gset Z) (objs : list entity) : list stmt :=
  omap (λ o,
    if is_a o "IfcVirtualElement" then None
    else if negb (bool_decide (I = ∅)) && negb (bool_decide (id o ∈ I)) then None
    else Some (NodeStmt (id o) (label_of o) (fill_of o))) objs.

(** A statement of the second loop: an edge between two registry entries. *)
Definition edge_ok (ifc_objects : gmap Z string) (s : stmt) : Prop :=
  match s with
  | EdgeStmt a b la lb _ _ => ifc_objects !! a = Some la ∧ ifc_objects !! b = Some lb
  | _ => False
  end.

(** A statement of the third loop: fixed text, a member naming a registry
    entry, or the header of a cluster whose root is not virtual and is a
    registry entry or a top-level [IfcSite]. *)
Definition cluster_ok (ifc_file : list instance) (ifc_objects : gmap Z string)
    (s : stmt) : Prop :=
  match s with
  | Line _ => True
  | MemberStmt n l => ifc_objects !! n = Some l
  | SubgraphStmt n =>
      n ∈ dom ifc_objects
      ∨ ∃ i, i ∈ ifc_file ∧ id (self i) = n ∧ is_a (self i) "IfcVirtualElement" = false
  | _ => False
  end.

(** The statements appended to [D] all satisfy [Φ]. *)
Definition appends (Φ : stmt → Prop) (D : list stmt) (σ : state) : Prop :=
  ∃ ext, dot σ = D ++ ext ∧ Forall Φ ext.

(** Hoare triples with a normal and an exceptional postcondition. *)
Definition triple {A} (P : state → Prop) (m : M A) (Q : A → state → Prop)
    (E : state → Prop) : Prop :=
  ∀ σ, P σ → match m σ with
             | (Ok a, σ') => Q a σ'
             | (Raise _, σ') => E σ'
             end.

Definition preserves {A} (P : state → Prop) (m : M A) : Prop :=
  triple P m (λ _, P) P.

(** A computation that never changes the state. *)
Definition pure {A} (m : M A) : Prop := ∀ σ, (m σ).2 = σ.

(** The invariant of the second loop: only the set at [nl] changes, it stays
    between the interest set and the interest set extended by registry keys,
    and only edges between registry entries are written. *)
Definition edges_inv (ifc_objects : gmap Z string) (S0 : gmap loc (gset Z)) (nl : loc)
    (I : gset Z) (D : list stmt) (σ : state) : Prop :=
  (∀ k, k ≠ nl → sets σ !! k = S0 !! k)
  ∧ (∃ NI, sets σ !! nl = Some NI ∧ I ⊆ NI ∧ NI ⊆ I ∪ dom ifc_objects)
  ∧ appends (edge_ok ifc_objects) D σ.

(** The invariant of the third loop: the store of sets is untouched and only
    cluster statements are written. *)
Definition clusters_inv (ifc_file : list instance) (ifc_objects : gmap Z string)
    (S0 : gmap loc (gset Z)) (D : list stmt) (σ : state) : Prop :=
  sets σ = S0 ∧ appends (cluster_ok ifc_file ifc_objects) D σ.

(** What a call of [write_dot] leaves behind, whether it returns or raises:
    only the fresh set [nl] is new in the store, it lies between the interest
    set and the interest set extended by registry keys, and the output is the
    header, the node statements, then edge and cluster statements. *)
Definition write_dot_post (ifc_file : list instance) (S0 : gmap loc (gset Z))
    (nl : loc) (I : gset Z) (σ : state) : Prop :=
  let ifc_objects := ifc_objects_of ifc_file in
  (∀ k, k ≠ nl → sets σ !! k = S0 !! k)
  ∧ (∃ NI, sets σ !! nl = Some NI ∧ I ⊆ NI ∧ NI ⊆ I ∪ dom ifc_objects)
  ∧ appends (λ s, edge_ok ifc_objects s ∨ cluster_ok ifc_file ifc_objects s)
      ([Line "strict graph G {"; Line "graph [overlap=false,splines=true,rankdir=LR];"]
         ++ node_stmts I (self <$> by_type ifc_file "IfcObject")) σ.

(** ** Comparing a filtered call with the unfiltered call *)

(** Every id of the statement is in [I]. *)
Definition in_interest (I : gset Z) (s : stmt) : bool :=
  forallb (λ n, bool_decide (n ∈ I)) (stmt_ids s).

(** The end of an edge that the filter adds to the next interest. *)
Definition edge_frontier (I : gset Z) (s : stmt) : gset Z :=
  match s with
  | EdgeStmt a b _ _ _ _ =>
      if bool_decide (a ∈ I) then (if bool_decide (b ∈ I) then ∅ else {[b]})
      else if bool_decide (b ∈ I) then {[a]} else ∅
  | _ => ∅
  end.

Definition frontier (I : gset Z) (out : list stmt) : gset Z :=
  ⋃ (edge_frontier I <$> out).

(** The ids named by the statements of an output. *)
Definition ids_of (out : list stmt) : gset Z := list_to_set (out ≫= stmt_ids).

(** A computation whose result does not depend on the state and that leaves
    the state as it is. *)
Definition stateless {A} (m : M A) : Prop := ∃ r, ∀ σ, m σ = (r, σ).

(** [m2], run with the non-empty interest set [I] at [l2], follows [m1], run
    with the empty interest set at [l1]: when [m1] returns after writing the
    edges [ext], [m2] returns after writing the edges of [ext] inside [I] and
    adding the frontier of [ext] to the set at [nl2]. *)
Definition simulates (ifc_objects : gmap Z string) (l1 nl1 l2 nl2 : loc) (I : gset Z)
    (m1 m2 : M unit) : Prop :=
  ∀ σ1 σ2 N1 NI σ1',
    sets σ1 !! l1 = Some ∅ → sets σ1 !! nl1 = Some N1 →
    sets σ2 !! l2 = Some I → sets σ2 !! nl2 = Some NI →
    m1 σ1 = (Ok tt, σ1') →
    ∃ ext, Forall (edge_ok ifc_objects) ext
           ∧ σ1' = State (sets σ1) (dot σ1 ++ ext)
           ∧ m2 σ2 = (Ok tt, State (<[nl2 := NI ∪ frontier I ext]> (sets σ2))
                                   (dot σ2 ++ filter (in_interest I) ext)).

(** The edge statement written for the related object [e] of a relationship
    of shape [s] whose relating object is [ea], when both are registered. *)
Definition edge_for (ifc_objects : gmap Z string) (s : shape) (ea e : entity) : option stmt :=
  match ifc_objects !! id ea, ifc_objects !! id e with
  | Some la, Some lb => Some (EdgeStmt (id ea) (id e) la lb (weight s) (style s))
  | _, _ => None
  end.

(** ** Models on which a call returns, and the block structure of the output *)

(** A relationship every attribute read of which succeeds, whose related
    objects are instances, and whose relating reference is an instance
    whenever there is a related object. *)
Definition well_formed_relationship (ifc_rel : instance) : Prop :=
  ∃ s es,
    (∀ σ, decompose ifc_rel σ = (Ok s, σ))
    ∧ (∀ σ, iter (related_objects s) σ = (Ok (PyInstance <$> es), σ))
    ∧ (es = [] ∨ ∃ ea, relating_object s = PyInstance ea).

(** Every child of the decomposition that is not virtual is registered and
    lies strictly below its parent. *)
Definition well_founded_decomposition (ifc_objects : gmap Z string)
    (rank : entity → nat) : Prop :=
  ∀ e c, c ∈ get_decomposition e → is_a c "IfcVirtualElement" = false →
         id c ∈ dom ifc_objects ∧ rank c < rank e.

(** The nesting depth after one more statement: the graph header and a
    subgraph header open a block, the line [}] closes one. *)
Definition bracket (lvl : option nat) (s : stmt) : option nat :=
  match lvl with
  | None => None
  | Some n =>
      match s with
      | SubgraphStmt _ => Some (S n)
      | Line t =>
          if String.eqb t "strict graph G {" then Some (S n)
          else if String.eqb t "}" then (match n with O => None | S m => Some m end)
          else Some n
      | _ => Some n
      end
  end.

(** The nesting depth at the end of an output; [None] when a block is closed
    that was never opened. *)
Definition level (out : list stmt) : option nat := foldl bracket (Some 0) out.

(** The invariant of the second and third loops of a filtered call: the
    interest set stays at [l], the next interest stays allocated at [nl], and
    the statements written so far name only ids of [I]. *)
Definition interest_inv (l nl : loc) (I : gset Z) (D : list stmt) (σ : state) : Prop :=
  sets σ !! l = Some I
  ∧ is_Some (sets σ !! nl)
  ∧ appends (λ s, ∀ n, n ∈ stmt_ids s → n ∈ I) D σ.

(** ** Comparing two filtered calls *)

(** [m2], run with the interest set [I] at [l2], follows [m1], run with the
    larger interest set [J] at [l1], in every outcome: they return or raise
    alike, [m1] writes edges [ext] between registry entries and [m2] the
    edges of [ext] inside [I], and both leave their interest set in place and
    their next interest allocated. *)
Definition narrows (ifc_objects : gmap Z string) (l1 nl1 l2 nl2 : loc) (J I : gset Z)
    (m1 m2 : M unit) : Prop :=
  ∀ σ1 σ2,
    sets σ1 !! l1 = Some J → is_Some (sets σ1 !! nl1) →
    sets σ2 !! l2 = Some I → is_Some (sets σ2 !! nl2) →
    ∃ ext, Forall (edge_ok ifc_objects) ext
           ∧ (m1 σ1).1 = (m2 σ2).1
           ∧ dot (m1 σ1).2 = dot σ1 ++ ext
           ∧ dot (m2 σ2).2 = dot σ2 ++ filter (in_interest I) ext
           ∧ sets (m1 σ1).2 !! l1 = Some J ∧ is_Some (sets (m1 σ1).2 !! nl1)
           ∧ sets (m2 σ2).2 !! l2 = Some I ∧ is_Some (sets (m2 σ2).2 !! nl2).

(** The set at [nl] holds the id [x]. *)
Definition next_interest_has (nl : loc) (x : Z) (σ : state) : Prop :=
  ∃ NI, sets σ !! nl = Some NI ∧ x ∈ NI.


(** ** Running monadic code *)

Lemma state_eta σ : State (sets σ) (dot σ) = σ.
Proof. by destruct σ. Qed.

Lemma bind_ok {A B} (m : M A) (k : A → M B) σ a σ' :
  m σ = (Ok a, σ') → bind m k σ = k a σ'.
Proof. unfold bind. by intros ->. Qed.

Lemma bind_raise {A B} (m : M A) (k : A → M B) σ e σ' :
  m σ = (Raise e, σ') → bind m k σ = (Raise e, σ').
Proof. unfold bind. by intros ->. Qed.

Lemma set_bool_run l X σ :
  sets σ !! l = Some X → set_bool l σ = (Ok (negb (bool_decide (X = ∅))), σ).
Proof. unfold set_bool. by intros ->. Qed.

Lemma set_contains_run l X x σ :
  sets σ !! l = Some X → set_contains l x σ = (Ok (bool_decide (x ∈ X)), σ).
Proof. unfold set_contains. by intros ->. Qed.

Lemma set_add_run l X x σ :
  sets σ !! l = Some X →
  set_add l x σ = (Ok tt, State (<[l := X ∪ {[x]}]> (sets σ)) (dot σ)).
Proof. unfold set_add. by intros ->. Qed.

Lemma not_of_interest_run l X x σ :
  sets σ !! l = Some X →
  not_of_interest l x σ
  = (Ok (negb (bool_decide (X = ∅)) && negb (bool_decide (x ∈ X))), σ).
Proof.
  intros HX. unfold not_of_interest.
  rewrite (bind_ok _ _ _ _ _ (set_bool_run _ _ _ HX)).
  destruct (bool_decide (X = ∅)); [done|]. cbn.
  by rewrite (bind_ok _ _ _ _ _ (set_contains_run _ _ _ _ HX)).
Qed.

Lemma dict_get_run (d : gmap Z string) k v σ :
  d !! k = Some v → dict_get d k σ = (Ok v, σ).
Proof. unfold dict_get. by intros ->. Qed.

Lemma getattr_run i name v σ :
  assoc name (attributes i) = Some v → getattr i name σ = (Ok v, σ).
Proof. unfold getattr. by intros ->. Qed.

(** ** The interest filter *)

Lemma registered_ends_run (ifc_objects : gmap Z string) s v ea eb σ :
  relating_object s = PyInstance ea → v = PyInstance eb →
  id ea ∈ dom ifc_objects → id eb ∈ dom ifc_objects →
  registered_ends ifc_objects s v σ = (Ok (Some (id ea, id eb)), σ).
Proof.
  intros Hs -> Ha Hb. unfold registered_ends, bind. rewrite Hs; cbn.
  by rewrite !bool_decide_true.
Qed.

Lemma write_candidate_run (ifc_objects : gmap Z string) l nl a b la lb w st I NI σ :
  ifc_objects !! a = Some la → ifc_objects !! b = Some lb →
  sets σ !! l = Some I → sets σ !! nl = Some NI →
  write_candidate ifc_objects l nl a b w st σ
  = if bool_decide (I = ∅) then
      (Ok tt, State (sets σ) (dot σ ++ [EdgeStmt a b la lb w st]))
    else if bool_decide (a ∈ I) then
      if bool_decide (b ∈ I) then
        (Ok tt, State (sets σ) (dot σ ++ [EdgeStmt a b la lb w st]))
      else (Ok tt, State (<[nl := NI ∪ {[b]}]> (sets σ)) (dot σ))
    else if bool_decide (b ∈ I) then
      (Ok tt, State (<[nl := NI ∪ {[a]}]> (sets σ)) (dot σ))
    else (Ok tt, σ).
Proof.
  intros Ha Hb HI HNI. unfold write_candidate.
  rewrite (bind_ok _ _ _ _ _ (set_bool_run _ _ _ HI)).
  assert (Hemit : ∀ σ', (let! label_a := dict_get ifc_objects a in
                        let! label_b := dict_get ifc_objects b in
                        dot_write (EdgeStmt a b label_a label_b w st)) σ'
                       = (Ok tt, State (sets σ') (dot σ' ++ [EdgeStmt a b la lb w st]))).
  { intros σ'. rewrite (bind_ok _ _ _ _ _ (dict_get_run _ _ _ _ Ha)).
    by rewrite (bind_ok _ _ _ _ _ (dict_get_run _ _ _ _ Hb)). }
  destruct (bool_decide (I = ∅)); cbn; [apply Hemit|].
  rewrite (bind_ok _ _ _ _ _ (set_contains_run _ _ _ _ HI)).
  rewrite (bind_ok _ _ _ _ _ (set_contains_run _ _ _ _ HI)).
  destruct (bool_decide (a ∈ I)), (bool_decide (b ∈ I)); cbn;
    [apply Hemit | by apply set_add_run | by apply set_add_run | done].
Qed.

(** C1. For an edge candidate whose two ends [a] and [b] are keys of the
    registry: with an empty interest set the edge statement is written and
    the store is unchanged; with a non-empty interest set containing neither
    end nothing is written and the store is unchanged; when only [a] is of
    interest nothing is written and [b] is added to the next interest; when
    only [b] is of interest nothing is written and [a] is added; when both
    are of interest the edge statement is written and the store is
    unchanged. *)
Theorem interest_filter_cases (ifc_objects : gmap Z string) l nl s v ea eb la lb I NI σ :
  relating_object s = PyInstance ea → v = PyInstance eb →
  ifc_objects !! id ea = Some la → ifc_objects !! id eb = Some lb →
  sets σ !! l = Some I → sets σ !! nl = Some NI →
  let a := id ea in
  let b := id eb in
  let edge := EdgeStmt a b la lb (weight s) (style s) in
  let run := write_edge ifc_objects l nl s v σ in
  (I = ∅ → run = (Ok tt, State (sets σ) (dot σ ++ [edge])))
  ∧ (I ≠ ∅ → a ∉ I → b ∉ I → run = (Ok tt, σ))
  ∧ (a ∈ I → b ∉ I → run = (Ok tt, State (<[nl := NI ∪ {[b]}]> (sets σ)) (dot σ)))
  ∧ (b ∈ I → a ∉ I → run = (Ok tt, State (<[nl := NI ∪ {[a]}]> (sets σ)) (dot σ)))
  ∧ (a ∈ I → b ∈ I → run = (Ok tt, State (sets σ) (dot σ ++ [edge]))).
Proof.
  intros Hs Hv Ha Hb HI HNI a b edge run.
  assert (Hrun : run = write_candidate ifc_objects l nl a b (weight s) (style s) σ).
  { subst run. unfold write_edge.
    by rewrite (bind_ok _ _ _ _ _
      (registered_ends_run _ _ _ _ _ _ Hs Hv
         (proj2 (elem_of_dom _ _) (mk_is_Some _ _ Ha))
         (proj2 (elem_of_dom _ _) (mk_is_Some _ _ Hb)))). }
  rewrite Hrun, (write_candidate_run _ _ _ _ _ _ _ _ _ _ _ _ Ha Hb HI HNI).
  repeat split.
  - intros ->. by rewrite bool_decide_true.
  - intros HI0 Ha0 Hb0. by rewrite !bool_decide_false.
  - intros Ha1 Hb0. rewrite (bool_decide_false (I = ∅)) by by apply (non_empty_inhabited_L a).
    by rewrite bool_decide_true, bool_decide_false.
  - intros Hb1 Ha0. rewrite (bool_decide_false (I = ∅)) by by apply (non_empty_inhabited_L b).
    by rewrite bool_decide_false, bool_decide_true.
  - intros Ha1 Hb1. rewrite (bool_decide_false (I = ∅)) by by apply (non_empty_inhabited_L a).
    by rewrite !bool_decide_true.
Qed.

(** ** The classifier *)

(** C5. The colour chosen by the chain of tests is the first match of the
    ordered list Group, SpatialElement, ElementAssembly, OpeningElement,
    Door or Window, Element, StructuralItem, with the default for every
    other type; a door or window is never given the colour of a general
    element, and is given the door and window colour whenever it is none of
    the four categories that come first. *)
Theorem classifier_first_match (node : entity) :
  fill_of node = first_match classify_chain node
  ∧ (is_a node "IfcDoor" || is_a node "IfcWindow" = true →
     fill_of node ≠ "#9999ff"
     ∧ (is_a node "IfcGroup" = false → is_a node "IfcSpatialElement" = false →
        is_a node "IfcElementAssembly" = false → is_a node "IfcOpeningElement" = false →
        fill_of node = "#99ccff")).
Proof.
  split.
  - unfold fill_of, classify_chain, first_match, existsb.
    by rewrite !orb_false_r.
  - intros Hdw. unfold fill_of. rewrite Hdw. split.
    + repeat case_match; discriminate.
    + by intros -> -> -> ->.
Qed.

(** ** The relationship decomposer *)

Lemma other_kinds_false (ifc_rel : instance) (r : row) :
  (∀ r', r' ∈ decomposition_table → is_a (self ifc_rel) (kind r') = true → r' = r) →
  Forall (λ r', r' = r ∨ is_a (self ifc_rel) (kind r') = false) decomposition_table.
Proof.
  intros Huniq. apply Forall_forall. intros r' Hr'.
  destruct (is_a (self ifc_rel) (kind r')) eqn:E; [left; by apply Huniq | by right].
Qed.

Lemma unrecognized_kinds_false (ifc_rel : instance) :
  ¬ recognized ifc_rel →
  Forall (λ r, is_a (self ifc_rel) (kind r) = false) decomposition_table.
Proof.
  intros Hno. apply Forall_forall. intros r Hr.
  destruct (is_a (self ifc_rel) (kind r)) eqn:E; [|done].
  destruct Hno. by exists r.
Qed.

Ltac split_table H :=
  unfold decomposition_table in H;
  repeat (apply Forall_cons in H as [? H]); clear H; cbn [kind] in *.

Lemma decompose_unrecognized (ifc_rel : instance) σ :
  ¬ recognized ifc_rel →
  decompose ifc_rel σ = (Ok (Shape PyNone (Listed []) "1" "solid"), σ).
Proof.
  intros Hno. apply unrecognized_kinds_false in Hno. split_table Hno.
  unfold decompose. by repeat match goal with H : is_a _ _ = false |- _ => rewrite H; clear H end.
Qed.

(** C6. A relationship of exactly one of the nine kinds of the table is
    decomposed into the relating end, the related ends (the attribute itself
    for a sequence, a one-element list for a single reference), the weight
    (9 when high, 1 otherwise) and the style of its row; the rows with a
    high weight, a dashed style and a dotted style are the ones listed; and
    a relationship of none of the nine kinds writes nothing and changes
    nothing. *)
Theorem decomposer_follows_table (ifc_rel : instance) σ :
  (∀ r relating related,
      r ∈ decomposition_table →
      is_a (self ifc_rel) (kind r) = true →
      (∀ r', r' ∈ decomposition_table → is_a (self ifc_rel) (kind r') = true → r' = r) →
      assoc (relating_attr r) (attributes ifc_rel) = Some relating →
      assoc (related_attr r) (attributes ifc_rel) = Some related →
      decompose ifc_rel σ = (Ok (row_shape r relating related), σ))
  ∧ kind <$> filter (λ r, high_weight r = true) decomposition_table
    = ["IfcRelAggregates"; "IfcRelNests"; "IfcRelConnectsElements";
       "IfcRelFillsElement"; "IfcRelVoidsElement"; "IfcRelSpaceBoundary"]
  ∧ kind <$> filter (λ r, line_style r = "dashed") decomposition_table
    = ["IfcRelConnectsElements"]
  ∧ kind <$> filter (λ r, line_style r = "dotted") decomposition_table
    = ["IfcRelSpaceBoundary"]
  ∧ (¬ recognized ifc_rel →
     ∀ ifc_objects interest new_interest,
       write_relationship ifc_objects interest new_interest ifc_rel σ = (Ok tt, σ)).
Proof.
  split; [|repeat split; try reflexivity].
  - intros r relating related Hr Hkind Huniq Hrelating Hrelated.
    apply other_kinds_false in Huniq. split_table Huniq.
    unfold decomposition_table in Hr.
    repeat (apply elem_of_cons in Hr as [-> | Hr]); [..| by apply elem_of_nil in Hr];
      cbn in Hkind, Hrelating, Hrelated;
      repeat match goal with
             | H : _ = _ ∨ _ |- _ =>
                 destruct H as [H | H];
                 [try discriminate H | try (rewrite H in Hkind; discriminate Hkind)]
             end;
      unfold decompose, row_shape, getattr, bind;
      repeat match goal with H : is_a _ _ = _ |- _ => rewrite H; clear H end;
      cbn; rewrite ?Hrelating, ?Hrelated; reflexivity.
  - intros Hno ifc_objects interest new_interest. unfold write_relationship.
    by rewrite (bind_ok _ _ _ _ _ (decompose_unrecognized _ _ Hno)).
Qed.

(** ** Rules for triples *)

Lemma triple_ret {A} (P : state → Prop) (a : A) (Q : A → state → Prop) E :
  (∀ σ, P σ → Q a σ) → triple P (ret a) Q E.
Proof. intros H σ HP. by apply H. Qed.

Lemma triple_raise {A} (P : state → Prop) e (Q : A → state → Prop) (E : state → Prop) :
  (∀ σ, P σ → E σ) → triple P (raise e) Q E.
Proof. intros H σ HP. by apply H. Qed.

Lemma triple_bind {A B} P (m : M A) (k : A → M B) R Q E :
  triple P m R E → (∀ a, triple (R a) (k a) Q E) → triple P (bind m k) Q E.
Proof.
  intros Hm Hk σ HP. specialize (Hm σ HP). unfold bind.
  destruct (m σ) as [[a|e] σ']; [by apply Hk | done].
Qed.

Lemma triple_weaken {A} (P P' : state → Prop) (m : M A) (Q Q' : A → state → Prop)
    (E E' : state → Prop) :
  triple P' m Q' E' →
  (∀ σ, P σ → P' σ) → (∀ a σ, Q' a σ → Q a σ) → (∀ σ, E' σ → E σ) →
  triple P m Q E.
Proof.
  intros Hm HP HQ HE σ Hσ. specialize (Hm σ (HP σ Hσ)).
  destruct (m σ) as [[a|e] σ']; auto.
Qed.

Lemma triple_pure {A} (m : M A) P (Q : A → state → Prop) :
  pure m → (∀ σ a, P σ → (m σ).1 = Ok a → Q a σ) → triple P m Q P.
Proof.
  intros Hp HQ σ HP. specialize (Hp σ). specialize (HQ σ).
  destruct (m σ) as [[a|e] σ']; simpl in *; subst; auto.
Qed.

Lemma preserves_pure {A} (m : M A) P : pure m → preserves P m.
Proof. intros Hp. by apply triple_pure. Qed.

Lemma pure_set_bool l : pure (set_bool l).
Proof. intros σ. unfold set_bool. by case_match. Qed.
Lemma pure_set_contains l x : pure (set_contains l x).
Proof. intros σ. unfold set_contains. by case_match. Qed.
Lemma pure_dict_get d k : pure (dict_get d k).
Proof. intros σ. unfold dict_get. by case_match. Qed.
Lemma pure_py_id v : pure (py_id v).
Proof. intros σ. by destruct v. Qed.
Lemma pure_getattr i name : pure (getattr i name).
Proof. intros σ. unfold getattr. by case_match. Qed.
Lemma pure_iter o : pure (iter o).
Proof. intros σ. by destruct o as [[]|]. Qed.
Lemma pure_ret {A} (a : A) : pure (ret a).
Proof. done. Qed.
Lemma pure_raise {A} e : pure (@raise A e).
Proof. done. Qed.

Lemma pure_bind {A B} (m : M A) (k : A → M B) :
  pure m → (∀ a, pure (k a)) → pure (bind m k).
Proof.
  intros Hm Hk σ. unfold bind. specialize (Hm σ).
  destruct (m σ) as [[a|e] σ']; simpl in *; subst; [apply Hk | done].
Qed.

Lemma pure_not_of_interest l x : pure (not_of_interest l x).
Proof.
  apply pure_bind; [apply pure_set_bool|]. intros [].
  - apply pure_bind; [apply pure_set_contains | intros; apply pure_ret].
  - apply pure_ret.
Qed.

Lemma pure_registered_ends d s v : pure (registered_ends d s v).
Proof.
  apply pure_bind; [apply pure_py_id|]. intros a. case_match; [|apply pure_ret].
  apply pure_bind; [apply pure_py_id|]. intros b. case_match; apply pure_ret.
Qed.

Lemma pure_decompose ifc_rel : pure (decompose ifc_rel).
Proof.
  unfold decompose.
  repeat (apply pure_bind; [case_match|intros ?]);
    try case_match;
    repeat first [apply pure_ret | apply pure_getattr
                 | apply pure_bind; [|intros ?]].
Qed.

Lemma triple_for_each {A} (xs : list A) (body : A → M unit) (P : state → Prop) :
  (∀ x, x ∈ xs → preserves P (body x)) → preserves P (for_each xs body).
Proof.
  induction xs as [|x xs IH]; intros Hbody; simpl.
  - by apply triple_ret.
  - eapply triple_bind; [apply Hbody; left|].
    intros []. apply IH. intros y Hy. apply Hbody. by right.
Qed.

Lemma triple_dot_write s (P : state → Prop) :
  (∀ σ, P σ → P (State (sets σ) (dot σ ++ [s]))) → preserves P (dot_write s).
Proof. intros H σ HP. by apply H. Qed.

Lemma appends_write Φ D s σ :
  Φ s → appends Φ D σ → appends Φ D (State (sets σ) (dot σ ++ [s])).
Proof.
  intros Hs (ext & Hdot & Hext). exists (ext ++ [s]). simpl. split.
  - by rewrite Hdot, (assoc_L (++)).
  - apply Forall_app. split; [done | by constructor].
Qed.

(** ** The first loop: the registry and the node statements *)

Lemma registry_app objs1 objs2 d :
  registry (objs1 ++ objs2) d = registry objs2 (registry objs1 d).
Proof. apply foldl_app. Qed.

Lemma node_stmts_app I objs1 objs2 :
  node_stmts I (objs1 ++ objs2) = node_stmts I objs1 ++ node_stmts I objs2.
Proof. apply omap_app. Qed.

Lemma write_object_run l I d o σ :
  sets σ !! l = Some I →
  write_object l d o σ
  = (Ok (registry [o] d), State (sets σ) (dot σ ++ node_stmts I [o])).
Proof.
  intros HI. unfold write_object, registry, node_stmts. simpl.
  destruct (is_a o "IfcVirtualElement").
  { unfold ret. by rewrite app_nil_r, state_eta. }
  rewrite (bind_ok _ _ _ _ _ (not_of_interest_run _ _ _ _ HI)).
  destruct (negb (bool_decide (I = ∅)) && negb (bool_decide (id o ∈ I))).
  { unfold ret. by rewrite app_nil_r, state_eta. }
  by rewrite (bind_ok _ _ _ _ _ (dict_get_run _ _ _ _ (lookup_insert_eq _ _ _))).
Qed.

Lemma write_objects_fold l I objs d σ :
  sets σ !! l = Some I →
  for_fold objs d (write_object l) σ
  = (Ok (registry objs d), State (sets σ) (dot σ ++ node_stmts I objs)).
Proof.
  intros HI. revert d σ HI. induction objs as [|o objs IH]; intros d σ HI.
  - simpl. unfold ret. by rewrite app_nil_r, state_eta.
  - simpl for_fold. rewrite (bind_ok _ _ _ _ _ (write_object_run _ _ _ _ _ HI)).
    rewrite IH by done. simpl sets. simpl dot.
    change (o :: objs) with ([o] ++ objs).
    by rewrite registry_app, node_stmts_app, (assoc_L (++)).
Qed.

Lemma write_objects_run ifc_file l I σ :
  sets σ !! l = Some I →
  write_objects ifc_file l σ
  = (Ok (ifc_objects_of ifc_file),
     State (sets σ) (dot σ ++ node_stmts I (self <$> by_type ifc_file "IfcObject"))).
Proof. apply write_objects_fold. Qed.

Lemma registry_lookup objs d n lbl :
  registry objs d !! n = Some lbl →
  d !! n = Some lbl
  ∨ ∃ o, o ∈ objs ∧ is_a o "IfcVirtualElement" = false ∧ id o = n ∧ label_of o = lbl.
Proof.
  revert d. induction objs as [|o objs IH]; intros d; [by left|].
  change (o :: objs) with ([o] ++ objs). rewrite registry_app.
  intros [Hd | (o' & Ho' & Hrest)]%IH.
  - unfold registry in Hd. simpl in Hd.
    destruct (is_a o "IfcVirtualElement") eqn:Hv; [by left|].
    destruct (decide (id o = n)) as [<-|Hne].
    + rewrite lookup_insert_eq in Hd. right. exists o.
      split; [by left|]. by simplify_eq.
    + rewrite lookup_insert_ne in Hd by done. by left.
  - right. exists o'. split; [by right | done].
Qed.

Lemma registry_dom objs d o :
  o ∈ objs → is_a o "IfcVirtualElement" = false → id o ∈ dom (registry objs d).
Proof.
  assert (Hmono : ∀ objs d n, n ∈ dom d → n ∈ dom (registry objs d)).
  { clear. induction objs as [|o objs IH]; intros d n Hn; [done|].
    change (o :: objs) with ([o] ++ objs). rewrite registry_app. apply IH.
    unfold registry. simpl. case_match; [done|].
    rewrite dom_insert_L. apply elem_of_union. by right. }
  revert d. induction objs as [|o' objs IH]; intros d Ho Hv.
  { by apply elem_of_nil in Ho. }
  change (o' :: objs) with ([o'] ++ objs). rewrite registry_app.
  apply elem_of_cons in Ho as [->|Ho]; [|by apply IH].
  apply Hmono. unfold registry. simpl. rewrite Hv.
  rewrite dom_insert_L. apply elem_of_union. left. by apply elem_of_singleton.
Qed.

Lemma registry_unique objs o :
  NoDup (id <$> objs) → o ∈ objs → is_a o "IfcVirtualElement" = false →
  registry objs ∅ !! id o = Some (label_of o).
Proof.
  intros Hnd Ho Hv.
  destruct (proj1 (elem_of_dom _ _) (registry_dom objs ∅ o Ho Hv)) as [lbl Hlbl].
  rewrite Hlbl. apply registry_lookup in Hlbl as [Hl | (o' & Ho' & _ & Hid & <-)].
  { by rewrite lookup_empty in Hl. }
  apply list_elem_of_lookup in Ho as [i Hi], Ho' as [j Hj].
  assert (i = j) as <-.
  { eapply NoDup_lookup; [done| |].
    - by rewrite list_lookup_fmap, Hi.
    - by rewrite list_lookup_fmap, Hj; simpl; rewrite Hid. }
  by simplify_eq.
Qed.

Lemma node_stmts_elem I objs s :
  s ∈ node_stmts I objs ↔
  ∃ o, o ∈ objs ∧ is_a o "IfcVirtualElement" = false ∧ (I = ∅ ∨ id o ∈ I)
       ∧ s = NodeStmt (id o) (label_of o) (fill_of o).
Proof.
  unfold node_stmts. rewrite list_elem_of_omap. split.
  - intros (o & Ho & Hs). exists o. split; [done|].
    destruct (is_a o "IfcVirtualElement"); [done|].
    do 2 case_bool_decide; simplify_eq/=; auto.
  - intros (o & Ho & Hv & HI & ->). exists o. split; [done|]. rewrite Hv.
    destruct HI as [-> | HI].
    + by rewrite bool_decide_true.
    + rewrite (bool_decide_true (id o ∈ I)) by done. by rewrite andb_false_r.
Qed.

(** ** The second loop *)

Lemma registered_ends_some (ifc_objects : gmap Z string) s v σ a b :
  (registered_ends ifc_objects s v σ).1 = Ok (Some (a, b)) →
  a ∈ dom ifc_objects ∧ b ∈ dom ifc_objects.
Proof.
  unfold registered_ends, bind, py_id, ret, raise.
  repeat (case_match; simplify_eq/=); try done.
  all: repeat case_bool_decide; simplify_eq/=; try done.
  all: intros; simplify_eq/=; done.
Qed.

Lemma write_candidate_preserves (ifc_objects : gmap Z string) S0 l nl I D a b w st :
  S0 !! l = Some I → l ≠ nl → a ∈ dom ifc_objects → b ∈ dom ifc_objects →
  preserves (edges_inv ifc_objects S0 nl I D)
            (write_candidate ifc_objects l nl a b w st).
Proof.
  intros Hl Hne Ha Hb σ (Hframe & (NI & HNI & Hsub & Hsup) & Happ).
  destruct (proj1 (elem_of_dom _ _) Ha) as [la Hla].
  destruct (proj1 (elem_of_dom _ _) Hb) as [lb Hlb].
  assert (HI : sets σ !! l = Some I) by (by rewrite Hframe).
  rewrite (write_candidate_run _ _ _ _ _ _ _ _ _ _ _ _ Hla Hlb HI HNI).
  assert (Hemit : edges_inv ifc_objects S0 nl I D
                    (State (sets σ) (dot σ ++ [EdgeStmt a b la lb w st]))).
  { split; [done|]. split; [by exists NI|]. by apply appends_write. }
  assert (Hadd : ∀ x, x ∈ dom ifc_objects →
            edges_inv ifc_objects S0 nl I D
              (State (<[nl := NI ∪ {[x]}]> (sets σ)) (dot σ))).
  { intros x Hx. split; [|split].
    - intros k Hk. simpl. rewrite lookup_insert_ne by done. by apply Hframe.
    - exists (NI ∪ {[x]}). simpl. rewrite lookup_insert_eq.
      split; [done|]. split; [by apply union_subseteq_l'|].
      apply union_least; [done|]. apply singleton_subseteq_l, elem_of_union. by right.
    - done. }
  repeat case_bool_decide; auto.
  by split; [|split; [exists NI|]].
Qed.

Lemma write_edge_preserves (ifc_objects : gmap Z string) S0 l nl I D s v :
  S0 !! l = Some I → l ≠ nl →
  preserves (edges_inv ifc_objects S0 nl I D) (write_edge ifc_objects l nl s v).
Proof.
  intros Hl Hne. unfold write_edge.
  eapply triple_bind.
  - apply (triple_pure _ _
      (λ r σ, edges_inv ifc_objects S0 nl I D σ
              ∧ ∀ a b, r = Some (a, b) → a ∈ dom ifc_objects ∧ b ∈ dom ifc_objects)).
    + apply pure_registered_ends.
    + intros σ r HP Hr. split; [done|]. intros a b ->.
      by eapply registered_ends_some.
  - intros [[a b]|].
    + intros σ [HP Hab]. destruct (Hab a b eq_refl).
      by apply write_candidate_preserves.
    + apply triple_ret. by intros σ [HP _].
Qed.

Lemma write_relationship_preserves (ifc_objects : gmap Z string) S0 l nl I D ifc_rel :
  S0 !! l = Some I → l ≠ nl →
  preserves (edges_inv ifc_objects S0 nl I D)
            (write_relationship ifc_objects l nl ifc_rel).
Proof.
  intros Hl Hne. unfold write_relationship.
  eapply triple_bind; [apply preserves_pure, pure_decompose|]. intros s.
  eapply triple_bind; [apply preserves_pure, pure_iter|]. intros vs.
  apply triple_for_each. intros v _. by apply write_edge_preserves.
Qed.

Lemma write_relationships_preserves ifc_file (ifc_objects : gmap Z string) S0 l nl I D :
  S0 !! l = Some I → l ≠ nl →
  preserves (edges_inv ifc_objects S0 nl I D)
            (write_relationships ifc_file ifc_objects l nl).
Proof.
  intros Hl Hne. apply triple_for_each. intros r _.
  by apply write_relationship_preserves.
Qed.

(** ** The third loop *)

Lemma triple_dict_get (d : gmap Z string) k (P : state → Prop) :
  triple P (dict_get d k) (λ v σ, P σ ∧ d !! k = Some v) P.
Proof.
  apply triple_pure; [apply pure_dict_get|].
  intros σ v HP. unfold dict_get. case_match; [|done].
  intros [= <-]. done.
Qed.

Lemma triple_assume {A} (P : state → Prop) (φ : Prop) (m : M A) Q E :
  (φ → triple P m Q E) → triple (λ σ, P σ ∧ φ) m Q E.
Proof. intros H σ [HP Hφ]. by apply H. Qed.

Lemma appends_refl Φ σ : appends Φ (dot σ) σ.
Proof. exists []. by rewrite app_nil_r. Qed.

Lemma appends_impl (Φ Ψ : stmt → Prop) D σ :
  (∀ s, Φ s → Ψ s) → appends Φ D σ → appends Ψ D σ.
Proof.
  intros HΦ (ext & Hdot & Hext). exists ext. split; [done|].
  by eapply Forall_impl.
Qed.

Lemma appends_trans Φ D σ σ' :
  appends Φ D σ → appends Φ (dot σ) σ' → appends Φ D σ'.
Proof.
  intros (ext & Hdot & Hext) (ext' & Hdot' & Hext'). exists (ext ++ ext'). split.
  - by rewrite Hdot', Hdot, (assoc_L (++)).
  - by apply Forall_app.
Qed.

Lemma clusters_inv_write ifc_file (ifc_objects : gmap Z string) S0 D s :
  cluster_ok ifc_file ifc_objects s →
  preserves (clusters_inv ifc_file ifc_objects S0 D) (dot_write s).
Proof.
  intros Hs. apply triple_dot_write. intros σ [HS Happ].
  split; [done | by apply appends_write].
Qed.

Lemma cluster_preserves ifc_file (ifc_objects : gmap Z string) S0 D l depth e :
  (is_a e "IfcVirtualElement" = false →
   cluster_ok ifc_file ifc_objects (SubgraphStmt (id e))) →
  preserves (clusters_inv ifc_file ifc_objects S0 D) (cluster depth e ifc_objects l).
Proof.
  revert e. induction depth as [|depth IH]; intros e He; simpl.
  { by apply triple_raise. }
  destruct (is_a e "IfcVirtualElement") eqn:Hv; [by apply triple_ret|].
  eapply triple_bind; [apply preserves_pure, pure_not_of_interest|].
  intros []; [by apply triple_ret|].
  destruct (get_decomposition e) as [|c cs]; [by apply triple_ret|].
  eapply triple_bind; [by apply clusters_inv_write, He|]. intros [].
  eapply triple_bind; [by apply clusters_inv_write|]. intros [].
  eapply triple_bind; [apply triple_dict_get|]. intros lbl.
  apply triple_assume. intros Hlbl.
  eapply triple_bind; [by apply clusters_inv_write|].
  intros [].
  eapply (triple_bind _ _ _ (λ _, clusters_inv ifc_file ifc_objects S0 D));
    [|intros []; by apply clusters_inv_write].
  apply triple_for_each. intros child _.
  destruct (is_a child "IfcVirtualElement"); [by apply triple_ret|].
  eapply triple_bind; [apply preserves_pure, pure_not_of_interest|].
  intros []; [by apply triple_ret|].
  eapply triple_bind; [apply triple_dict_get|]. intros lbl'.
  apply triple_assume. intros Hlbl'.
  eapply triple_bind; [by apply clusters_inv_write|]. intros [].
  apply IH. intros _. left. apply elem_of_dom. by exists lbl'.
Qed.

Lemma write_clusters_preserves ifc_file (ifc_objects : gmap Z string) S0 D l :
  preserves (clusters_inv ifc_file ifc_objects S0 D)
            (write_clusters ifc_file ifc_objects l).
Proof.
  apply triple_for_each. intros e He. apply cluster_preserves. intros Hv. right.
  apply list_elem_of_fmap in He as (i & -> & Hi).
  apply list_elem_of_filter in Hi as [_ Hi]. by exists i.
Qed.

(** ** The whole call *)

Lemma set_copy_run l X σ :
  sets σ !! l = Some X →
  set_copy l σ = (Ok (fresh (dom (sets σ))),
                  State (<[fresh (dom (sets σ)) := X]> (sets σ)) (dot σ)).
Proof. unfold set_copy. by intros ->. Qed.

Lemma fresh_loc_ne (S0 : gmap loc (gset Z)) l X :
  S0 !! l = Some X → l ≠ fresh (dom S0).
Proof.
  intros Hl ->. apply (is_fresh (dom S0)). apply elem_of_dom. by exists X.
Qed.

Lemma write_dot_outcome ifc_file l I σ :
  sets σ !! l = Some I →
  let nl := fresh (dom (sets σ)) in
  let run := write_dot ifc_file l σ in
  (run.1 = Ok nl ∨ ∃ e, run.1 = Raise e)
  ∧ write_dot_post ifc_file (<[nl := I]> (sets σ)) nl I run.2.
Proof.
  intros HI nl run. subst run. unfold write_dot.
  rewrite (bind_ok _ _ _ _ _ (set_copy_run _ _ _ HI)). fold nl.
  assert (Hne : l ≠ nl) by by eapply fresh_loc_ne.
  set (S1 := <[nl := I]> (sets σ)).
  set (D1 := [Line "strict graph G {";
              Line "graph [overlap=false,splines=true,rankdir=LR];"]).
  set (σ1 := State S1 D1).
  assert (HI1 : sets σ1 !! l = Some I) by (simpl; unfold S1; by rewrite lookup_insert_ne).
  change (let run := (let! ifc_objects := write_objects ifc_file l in
                      write_relationships ifc_file ifc_objects l nl >>
                      write_clusters ifc_file ifc_objects l >>
                      dot_write (Line "}") >> ret nl) σ1 in
          (run.1 = Ok nl ∨ ∃ e, run.1 = Raise e)
          ∧ write_dot_post ifc_file S1 nl I run.2).
  rewrite (bind_ok _ _ _ _ _ (write_objects_run _ _ _ _ HI1)).
  set (reg := ifc_objects_of ifc_file).
  set (D2 := dot σ1 ++ node_stmts I (self <$> by_type ifc_file "IfcObject")).
  set (σ2 := State (sets σ1) D2).
  assert (H2 : edges_inv reg S1 nl I D2 σ2).
  { split; [done|]. split; [|apply appends_refl].
    exists I. simpl. unfold S1. rewrite lookup_insert_eq.
    split; [done|]. split; [done | apply union_subseteq_l]. }
  assert (HS1 : S1 !! l = Some I) by done.
  pose proof (write_relationships_preserves ifc_file reg S1 l nl I D2 HS1 Hne σ2 H2) as H3.
  destruct (write_relationships ifc_file reg l nl σ2) as [[[]|e] σ3] eqn:E3;
    destruct H3 as (Hframe & HNI & Happ).
  2:{ rewrite (bind_raise _ _ _ _ _ E3). simpl.
      split; [right; by exists e|]. split; [done|]. split; [done|].
      eapply appends_impl; [|done]. by left. }
  rewrite (bind_ok _ _ _ _ _ E3).
  pose proof (write_clusters_preserves ifc_file reg (sets σ3) (dot σ3) l σ3
                (conj eq_refl (appends_refl _ _))) as H4.
  destruct (write_clusters ifc_file reg l σ3) as [[[]|e] σ4] eqn:E4;
    destruct H4 as (Hsets & Happ4).
  2:{ rewrite (bind_raise _ _ _ _ _ E4). simpl.
      split; [right; by exists e|]. unfold write_dot_post. rewrite Hsets.
      split; [done|]. split; [done|].
      eapply appends_trans; [eapply appends_impl; [|exact Happ]; by left|].
      eapply appends_impl; [|done]. by right. }
  rewrite (bind_ok _ _ _ _ _ E4). simpl.
  split; [by left|]. unfold write_dot_post. simpl. rewrite Hsets.
  split; [done|]. split; [done|].
  eapply appends_trans; [eapply appends_impl; [|exact Happ]; by left|].
  apply (appends_write _ _ (Line "}") σ4); [by right|].
  eapply appends_impl; [|done]. by right.
Qed.

(** ** Labels determine the entity *)

Lemma pretty_N_go_no_eq x s : has_eq s = false → has_eq (pretty_N_go x s) = false.
Proof.
  revert s. induction (N.lt_wf_0 x) as [x _ IH]; intros s Hs.
  assert (x = 0 ∨ 0 < x)%N as [->|?] by lia.
  - by rewrite pretty_N_go_0.
  - rewrite pretty_N_go_step by done. apply IH.
    { by apply N.div_lt. }
    simpl. rewrite Hs. unfold pretty_N_char. by repeat case_match.
Qed.

Lemma pretty_Z_no_eq (z : Z) : has_eq (pretty z) = false.
Proof.
  assert (HN : ∀ n : N, has_eq (pretty n) = false).
  { intros n. unfold pretty, pretty_N. case_decide; [done|].
    by apply pretty_N_go_no_eq. }
  destruct z as [|p|p]; [done|apply (HN (Npos p))|].
  unfold pretty, pretty_Z. simpl. apply (HN (Npos p)).
Qed.

Lemma split_at_eq s1 s2 t1 t2 :
  has_eq s1 = false → has_eq s2 = false →
  s1 +:+ String "="%char t1 = s2 +:+ String "="%char t2 → s1 = s2 ∧ t1 = t2.
Proof.
  revert s2. induction s1 as [|c s1 IH]; intros [|c' s2]; simpl.
  - intros _ _ [= ->]. done.
  - intros _ [Hc _]%orb_false_elim [= <- _]. done.
  - intros [Hc _]%orb_false_elim _ [= -> _]. done.
  - intros [_ H1]%orb_false_elim [_ H2]%orb_false_elim [= -> H].
    destruct (IH s2 H1 H2 H) as [-> ->]. done.
Qed.

Lemma label_of_inj (a b : entity) : label_of a = label_of b → a = b.
Proof.
  unfold label_of. intros [= H].
  apply split_at_eq in H as [Hid Hname]; [|apply pretty_Z_no_eq..].
  apply (inj pretty) in Hid. destruct a, b; simpl in *. by subst.
Qed.

Lemma cluster_child_keeps_sets (ifc_objects : gmap Z string) l S0 (rec : entity → M unit)
    child :
  (∀ c, preserves (λ σ, sets σ = S0) (rec c)) →
  preserves (λ σ, sets σ = S0)
    (if is_a child "IfcVirtualElement" then ret tt
     else
       let! skip := not_of_interest l (id child) in
       if skip then ret tt
       else
         let! label := dict_get ifc_objects (id child) in
         dot_write (MemberStmt (id child) label) >> rec child).
Proof.
  intros Hrec.
  destruct (is_a child "IfcVirtualElement"); [by apply triple_ret|].
  eapply triple_bind; [apply preserves_pure, pure_not_of_interest|].
  intros []; [by apply triple_ret|].
  eapply triple_bind; [apply preserves_pure, pure_dict_get|]. intros lbl.
  eapply triple_bind; [by apply triple_dot_write|]. intros []. apply Hrec.
Qed.

Lemma cluster_keeps_sets (ifc_objects : gmap Z string) l S0 depth e :
  preserves (λ σ, sets σ = S0) (cluster depth e ifc_objects l).
Proof.
  revert e. induction depth as [|depth IH]; intros e; simpl.
  { by apply triple_raise. }
  destruct (is_a e "IfcVirtualElement"); [by apply triple_ret|].
  eapply triple_bind; [apply preserves_pure, pure_not_of_interest|].
  intros []; [by apply triple_ret|].
  destruct (get_decomposition e) as [|c cs]; [by apply triple_ret|].
  eapply triple_bind; [by apply triple_dot_write|]. intros [].
  eapply triple_bind; [by apply triple_dot_write|]. intros [].
  eapply triple_bind; [apply preserves_pure, pure_dict_get|]. intros lbl.
  eapply triple_bind; [by apply triple_dot_write|]. intros [].
  eapply (triple_bind _ _ _ (λ _ σ', sets σ' = S0));
    [|intros []; by apply triple_dot_write].
  apply triple_for_each. intros child _.
  by apply (cluster_child_keeps_sets ifc_objects l S0 (λ c, cluster depth c ifc_objects l)).
Qed.

Lemma keeps_sets_lookup {A} (m : M A) l (X : gset Z) :
  (∀ S0, preserves (λ σ, sets σ = S0) m) →
  preserves (λ σ, sets σ !! l = Some X) m.
Proof.
  intros Hm σ HX. specialize (Hm (sets σ) σ eq_refl).
  destruct (m σ) as [[a|e] σ']; by rewrite Hm.
Qed.

(** ** Properties of a call *)

(** C2. The set returned by [write_dot] is a new object that contains every
    element of the interest set passed in, and the call leaves the caller's
    interest set, like every other set that existed before the call, as it
    was. *)
Theorem next_interest_superset ifc_file l I σ :
  sets σ !! l = Some I →
  let run := write_dot ifc_file l σ in
  sets run.2 !! l = Some I
  ∧ (∀ k, k ∈ dom (sets σ) → sets run.2 !! k = sets σ !! k)
  ∧ ∀ nl, run.1 = Ok nl →
      nl ≠ l ∧ (nl ∉ dom (sets σ)) ∧ ∃ NI, sets run.2 !! nl = Some NI ∧ I ⊆ NI.
Proof.
  intros HI run. subst run.
  destruct (write_dot_outcome ifc_file l I σ HI) as (Hres & Hframe & HNI & _).
  pose proof (is_fresh (dom (sets σ))) as Hfresh.
  assert (Hold : ∀ k, k ∈ dom (sets σ) →
            sets ((write_dot ifc_file l σ).2) !! k = sets σ !! k).
  { intros k Hk.
    assert (Hk' : k ≠ fresh (dom (sets σ))) by (intros ->; by apply Hfresh).
    rewrite Hframe by done. by rewrite lookup_insert_ne. }
  split; [|split; [done|]].
  - rewrite Hold, HI; [done|]. apply elem_of_dom. by exists I.
  - intros nl Hnl. destruct Hres as [Hok | [e He]]; [|congruence].
    rewrite Hok in Hnl. injection Hnl as <-.
    split; [|split; [done|]].
    + intros Heq. apply Hfresh. rewrite Heq. apply elem_of_dom. by exists I.
    + destruct HNI as (NI & HNI & Hsub & _). by exists NI.
Qed.

(** C10. Every id of the returned set that was not in the interest set
    passed in is a key of the registry built by the first loop, that is, the
    id of an instance of the file that is an [IfcObject] and not an
    [IfcVirtualElement]. *)
Theorem frontier_is_registered ifc_file l I σ nl NI x :
  sets σ !! l = Some I →
  (write_dot ifc_file l σ).1 = Ok nl →
  sets (write_dot ifc_file l σ).2 !! nl = Some NI →
  x ∈ NI → x ∉ I →
  (∀ σ', sets σ' !! l = Some I →
         (write_objects ifc_file l σ').1 = Ok (ifc_objects_of ifc_file))
  ∧ x ∈ dom (ifc_objects_of ifc_file)
  ∧ ∃ i, i ∈ ifc_file ∧ id (self i) = x
         ∧ is_a (self i) "IfcObject" = true
         ∧ is_a (self i) "IfcVirtualElement" = false.
Proof.
  intros HI Hok HNI Hx HxI.
  destruct (write_dot_outcome ifc_file l I σ HI) as (Hres & _ & (NI' & HNI' & _ & Hsup) & _).
  destruct Hres as [Hres | [e He]]; [|congruence].
  rewrite Hok in Hres. injection Hres as ->. rewrite HNI in HNI'. injection HNI' as <-.
  assert (Hdom : x ∈ dom (ifc_objects_of ifc_file)).
  { apply Hsup, elem_of_union in Hx as [?|?]; done. }
  split; [|split; [done|]].
  - intros σ' HI'. by rewrite (write_objects_run _ _ _ _ HI').
  - apply elem_of_dom in Hdom as [lbl Hlbl].
    apply registry_lookup in Hlbl as [Hl | (o & Ho & Hv & Hid & _)].
    { by rewrite lookup_empty in Hl. }
    apply list_elem_of_fmap in Ho as (i & -> & Hi).
    apply list_elem_of_filter in Hi as [Hobj Hi].
    exists i. repeat split; try done. by apply Is_true_true.
Qed.

(** C9. A call of [cluster] on a root whose id is not in a non-empty
    interest set returns at once with the state as it was: nothing is
    written, no set is changed, and no nested call is made (the result does
    not depend on the depth left or on the decomposition).  Whatever the
    root, a call of [cluster] and the whole third loop leave every set of the
    store, the next interest among them, as it was. *)
Theorem cluster_pruned_is_noop ifc_file (ifc_objects : gmap Z string) l I σ e depth :
  (sets σ !! l = Some I → I ≠ ∅ → id e ∉ I →
   cluster (S depth) e ifc_objects l σ = (Ok tt, σ))
  ∧ sets (cluster depth e ifc_objects l σ).2 = sets σ
  ∧ sets (write_clusters ifc_file ifc_objects l σ).2 = sets σ.
Proof.
  split; [|split].
  - intros HI Hne He. simpl. destruct (is_a e "IfcVirtualElement"); [done|].
    rewrite (bind_ok _ _ _ _ _ (not_of_interest_run _ _ _ _ HI)).
    by rewrite bool_decide_false, bool_decide_false.
  - pose proof (cluster_keeps_sets ifc_objects l (sets σ) depth e) as H.
    specialize (H σ eq_refl).
    by destruct (cluster depth e ifc_objects l σ) as [[[]|?] ?].
  - pose proof (write_clusters_preserves ifc_file ifc_objects (sets σ) (dot σ) l σ
                  (conj eq_refl (appends_refl _ _))) as H.
    by destruct (write_clusters ifc_file ifc_objects l σ) as [[[]|?] ?]; destruct H.
Qed.

Lemma registry_entry_object ifc_file n lbl :
  ifc_objects_of ifc_file !! n = Some lbl →
  ∃ i, i ∈ ifc_file ∧ is_a (self i) "IfcObject" = true
       ∧ is_a (self i) "IfcVirtualElement" = false
       ∧ id (self i) = n ∧ label_of (self i) = lbl.
Proof.
  intros [Hl | (o & Ho & Hv & Hid & Hlbl)]%registry_lookup.
  { by rewrite lookup_empty in Hl. }
  apply list_elem_of_fmap in Ho as (i & -> & Hi).
  apply list_elem_of_filter in Hi as [Hobj Hi].
  exists i. repeat split; try done. by apply Is_true_true.
Qed.

(** Every statement of the output names instances of the file that are not
    virtual; every label it prints is the label of an [IfcObject] of the file
    that is not virtual. *)
Lemma emitted_statements ifc_file l I σ s :
  sets σ !! l = Some I →
  s ∈ dot (write_dot ifc_file l σ).2 →
  (∀ lbl, lbl ∈ stmt_labels s →
     ∃ i, i ∈ ifc_file ∧ is_a (self i) "IfcObject" = true
          ∧ is_a (self i) "IfcVirtualElement" = false ∧ label_of (self i) = lbl)
  ∧ (∀ n, n ∈ stmt_ids s →
     ∃ i, i ∈ ifc_file ∧ is_a (self i) "IfcVirtualElement" = false ∧ id (self i) = n).
Proof.
  intros HI Hs.
  destruct (write_dot_outcome ifc_file l I σ HI) as (_ & _ & _ & ext & Hdot & Hext).
  rewrite Hdot in Hs.
  assert (Hreg : ∀ n lbl, ifc_objects_of ifc_file !! n = Some lbl →
    (∃ i, i ∈ ifc_file ∧ is_a (self i) "IfcObject" = true
          ∧ is_a (self i) "IfcVirtualElement" = false ∧ label_of (self i) = lbl)
    ∧ (∃ i, i ∈ ifc_file ∧ is_a (self i) "IfcVirtualElement" = false ∧ id (self i) = n)).
  { intros n lbl (i & Hi & Hobj & Hv & Hid & Hlbl)%registry_entry_object.
    split; by exists i. }
  apply elem_of_app in Hs as [Hs | Hs]; [apply elem_of_app in Hs as [Hs | Hs]|].
  - repeat (apply elem_of_cons in Hs as [-> | Hs]); [..|by apply elem_of_nil in Hs];
      split; intros ? H; by apply elem_of_nil in H.
  - apply node_stmts_elem in Hs as (o & Ho & Hv & _ & ->).
    apply list_elem_of_fmap in Ho as (i & -> & Hi).
    apply list_elem_of_filter in Hi as [Hobj Hi]. apply Is_true_true in Hobj.
    split; intros ? ->%list_elem_of_singleton; by exists i.
  - rewrite Forall_forall in Hext. destruct (Hext s Hs) as [Hok | Hok].
    + destruct s; try done. destruct Hok as [Ha Hb].
      destruct (Hreg _ _ Ha) as [? ?], (Hreg _ _ Hb) as [? ?].
      split; intros ? Hin; simpl in Hin;
        repeat (apply elem_of_cons in Hin as [-> | Hin]); try done;
        by apply elem_of_nil in Hin.
    + destruct s; try done; simpl in Hok.
      * split; intros ? H; by apply elem_of_nil in H.
      * split; [intros ? H; by apply elem_of_nil in H|].
        intros ? ->%list_elem_of_singleton.
        destruct Hok as [[lbl Hlbl]%elem_of_dom | (i & Hi & Hid & Hv)].
        -- by destruct (Hreg _ _ Hlbl).
        -- by exists i.
      * destruct (Hreg _ _ Hok) as [? ?].
        split; by intros ? ->%list_elem_of_singleton.
Qed.

(** C4. An [IfcVirtualElement] is never registered and never printed: its
    label is no value of the registry and occurs in no node, edge or cluster
    statement of the output, whatever the interest set; and when it is an
    instance of a file whose instances have distinct ids, its id is no key
    of the registry and occurs in no statement. *)
Theorem virtual_never_emitted ifc_file l I σ (N : entity) :
  sets σ !! l = Some I →
  is_a N "IfcVirtualElement" = true →
  let out := dot (write_dot ifc_file l σ).2 in
  let ifc_objects := ifc_objects_of ifc_file in
  (∀ σ', sets σ' !! l = Some I → (write_objects ifc_file l σ').1 = Ok ifc_objects)
  ∧ (∀ k, ifc_objects !! k ≠ Some (label_of N))
  ∧ (∀ s, s ∈ out → label_of N ∉ stmt_labels s)
  ∧ (N ∈ self <$> ifc_file → NoDup (id ∘ self <$> ifc_file) →
     ifc_objects !! id N = None ∧ ∀ s, s ∈ out → id N ∉ stmt_ids s).
Proof.
  intros HI HN out ifc_objects. subst out ifc_objects.
  split; [|split; [|split]].
  - intros σ' HI'. by rewrite (write_objects_run _ _ _ _ HI').
  - intros k (i & _ & _ & Hv & _ & Hlbl)%registry_entry_object.
    apply label_of_inj in Hlbl as <-. congruence.
  - intros s Hs Hin.
    destruct (emitted_statements _ _ _ _ _ HI Hs) as [Hlabels _].
    destruct (Hlabels _ Hin) as (i & _ & _ & Hv & Hlbl).
    apply label_of_inj in Hlbl as <-. congruence.
  - intros (iN & -> & HiN)%list_elem_of_fmap Hnd.
    assert (Hno : ∀ i, i ∈ ifc_file → is_a (self i) "IfcVirtualElement" = false →
                       id (self i) ≠ id (self iN)).
    { intros i Hi Hv Hid.
      apply list_elem_of_lookup in Hi as [j Hj], HiN as [k Hk].
      assert (j = k) as ->.
      { eapply NoDup_lookup; [done| |].
        - by rewrite list_lookup_fmap, Hj.
        - by rewrite list_lookup_fmap, Hk; simpl; rewrite Hid. }
      simplify_eq. congruence. }
    split.
    + destruct (ifc_objects_of ifc_file !! id (self iN)) as [lbl|] eqn:E; [|done].
      apply registry_entry_object in E as (i & Hi & _ & Hv & Hid & _).
      by destruct (Hno i Hi Hv).
    + intros s Hs Hin.
      destruct (emitted_statements _ _ _ _ _ HI Hs) as [_ Hids].
      destruct (Hids _ Hin) as (i & Hi & Hv & Hid).
      by destruct (Hno i Hi Hv).
Qed.

(** An edge with an end that is not a key of the registry is skipped without
    an exception, even when the related end is unset. *)
Lemma write_edge_unregistered (ifc_objects : gmap Z string) l nl s v ea σ :
  relating_object s = PyInstance ea →
  id ea ∉ dom ifc_objects ∨ (∃ eb, v = PyInstance eb ∧ id eb ∉ dom ifc_objects) →
  write_edge ifc_objects l nl s v σ = (Ok tt, σ).
Proof.
  intros Hs Hends. unfold write_edge, registered_ends, bind. rewrite Hs. simpl.
  case_bool_decide; [|done].
  destruct Hends as [Ha | (eb & -> & Hb)]; [done|]. simpl.
  by rewrite bool_decide_false.
Qed.

(** ** The second loop of a filtered call follows the unfiltered call *)

Lemma stateless_ret {A} (a : A) : stateless (ret a).
Proof. by exists (Ok a). Qed.
Lemma stateless_raise {A} e : stateless (@raise A e).
Proof. by exists (Raise e). Qed.
Lemma stateless_bind {A B} (m : M A) (k : A → M B) :
  stateless m → (∀ a, stateless (k a)) → stateless (bind m k).
Proof.
  intros [[a|e] Hm] Hk.
  - destruct (Hk a) as [r Hr]. exists r. intros σ. unfold bind. by rewrite Hm.
  - exists (Raise e). intros σ. unfold bind. by rewrite Hm.
Qed.
Lemma stateless_py_id v : stateless (py_id v).
Proof. destruct v; [apply stateless_raise|apply stateless_ret|apply stateless_raise]. Qed.
Lemma stateless_getattr i name : stateless (getattr i name).
Proof. unfold getattr. case_match; [apply stateless_ret|apply stateless_raise]. Qed.
Lemma stateless_iter o : stateless (iter o).
Proof.
  destruct o as [[]|]; simpl;
    first [apply stateless_ret | apply stateless_raise].
Qed.

Lemma stateless_registered_ends d s v : stateless (registered_ends d s v).
Proof.
  apply stateless_bind; [apply stateless_py_id|]. intros a.
  case_match; [|apply stateless_ret].
  apply stateless_bind; [apply stateless_py_id|]. intros b.
  case_match; apply stateless_ret.
Qed.

Lemma stateless_decompose ifc_rel : stateless (decompose ifc_rel).
Proof.
  unfold decompose.
  repeat (apply stateless_bind; [case_match|intros ?]);
    try case_match;
    repeat first [apply stateless_ret | apply stateless_getattr
                 | apply stateless_bind; [|intros ?]].
Qed.

Lemma frontier_app I out1 out2 :
  frontier I (out1 ++ out2) = frontier I out1 ∪ frontier I out2.
Proof. unfold frontier. by rewrite fmap_app, union_list_app_L. Qed.

Lemma simulated_state σ nl (NI : gset Z) I :
  sets σ !! nl = Some NI →
  State (<[nl := NI ∪ frontier I []]> (sets σ)) (dot σ ++ filter (in_interest I) []) = σ.
Proof.
  intros HNI. unfold frontier. simpl. rewrite filter_nil, app_nil_r, (right_id_L ∅ (∪)).
  by rewrite insert_id, state_eta.
Qed.

Lemma simulates_ret (ifc_objects : gmap Z string) l1 nl1 l2 nl2 I :
  simulates ifc_objects l1 nl1 l2 nl2 I (ret tt) (ret tt).
Proof.
  intros σ1 σ2 N1 NI σ1' _ _ _ HNI [= <-]. exists []. split; [done|]. split.
  - by rewrite app_nil_r, state_eta.
  - unfold ret. by rewrite simulated_state.
Qed.

Lemma simulates_seq (ifc_objects : gmap Z string) l1 nl1 l2 nl2 I m1 m2 k1 k2 :
  l2 ≠ nl2 →
  simulates ifc_objects l1 nl1 l2 nl2 I m1 m2 →
  simulates ifc_objects l1 nl1 l2 nl2 I k1 k2 →
  simulates ifc_objects l1 nl1 l2 nl2 I (m1 >> k1) (m2 >> k2).
Proof.
  intros Hne Hm Hk σ1 σ2 N1 NI σ1'' H1 H1n H2 H2n Hrun.
  unfold bind in Hrun. destruct (m1 σ1) as [[[]|e] σ1'] eqn:E1; [|done].
  destruct (Hm σ1 σ2 N1 NI σ1' H1 H1n H2 H2n E1) as (ext & Hext & -> & Hm2).
  destruct (Hk (State (sets σ1) (dot σ1 ++ ext))
               (State (<[nl2 := NI ∪ frontier I ext]> (sets σ2))
                      (dot σ2 ++ filter (in_interest I) ext))
               N1 (NI ∪ frontier I ext) σ1'') as (ext' & Hext' & -> & Hk2);
    [done | done | by simpl; rewrite lookup_insert_ne
    | by simpl; rewrite lookup_insert_eq | done |].
  exists (ext ++ ext'). split; [by apply Forall_app|]. split.
  - simpl. by rewrite (assoc_L (++)).
  - rewrite (bind_ok _ _ _ _ _ Hm2), Hk2. simpl.
    by rewrite insert_insert_eq, frontier_app, filter_app, !(assoc_L (++)), (assoc_L (∪)).
Qed.

Lemma simulates_for_each {A} (ifc_objects : gmap Z string) l1 nl1 l2 nl2 I
    (xs : list A) (body1 body2 : A → M unit) :
  l2 ≠ nl2 →
  (∀ x, simulates ifc_objects l1 nl1 l2 nl2 I (body1 x) (body2 x)) →
  simulates ifc_objects l1 nl1 l2 nl2 I (for_each xs body1) (for_each xs body2).
Proof.
  intros Hne Hbody. induction xs as [|x xs IH]; simpl.
  - apply simulates_ret.
  - by apply simulates_seq.
Qed.

Lemma simulates_bind_stateless {A} (ifc_objects : gmap Z string) l1 nl1 l2 nl2 I
    (m : M A) (k1 k2 : A → M unit) :
  stateless m →
  (∀ a, (∀ σ, m σ = (Ok a, σ)) → simulates ifc_objects l1 nl1 l2 nl2 I (k1 a) (k2 a)) →
  simulates ifc_objects l1 nl1 l2 nl2 I (bind m k1) (bind m k2).
Proof.
  intros [r Hr] Hk σ1 σ2 N1 NI σ1' H1 H1n H2 H2n. unfold bind. rewrite !Hr.
  destruct r as [a|e]; [by apply (Hk a Hr σ1 σ2 N1 NI σ1') | done].
Qed.

Lemma simulates_write_candidate (ifc_objects : gmap Z string) l1 nl1 l2 nl2 I a b w st :
  I ≠ ∅ → a ∈ dom ifc_objects → b ∈ dom ifc_objects →
  simulates ifc_objects l1 nl1 l2 nl2 I
    (write_candidate ifc_objects l1 nl1 a b w st)
    (write_candidate ifc_objects l2 nl2 a b w st).
Proof.
  intros HI [la Hla]%elem_of_dom [lb Hlb]%elem_of_dom σ1 σ2 N1 NI σ1' H1 H1n H2 H2n.
  rewrite (write_candidate_run _ _ _ _ _ _ _ _ _ _ _ _ Hla Hlb H1 H1n).
  rewrite (write_candidate_run _ _ _ _ _ _ _ _ _ _ _ _ Hla Hlb H2 H2n).
  rewrite bool_decide_true by done. rewrite (bool_decide_false (I = ∅)) by done.
  intros [= <-]. exists [EdgeStmt a b la lb w st].
  split; [by repeat constructor|]. split; [done|].
  unfold frontier. simpl. rewrite filter_cons, filter_nil. unfold in_interest. simpl.
  destruct (bool_decide (a ∈ I)), (bool_decide (b ∈ I)); simpl;
    rewrite ?(right_id_L ∅ (∪)), ?app_nil_r, ?(insert_id _ _ _ H2n), ?state_eta; done.
Qed.

Lemma simulates_write_edge (ifc_objects : gmap Z string) l1 nl1 l2 nl2 I s v :
  I ≠ ∅ →
  simulates ifc_objects l1 nl1 l2 nl2 I
    (write_edge ifc_objects l1 nl1 s v) (write_edge ifc_objects l2 nl2 s v).
Proof.
  intros HI. apply simulates_bind_stateless; [apply stateless_registered_ends|].
  intros [[a b]|] Hr; [|apply simulates_ret].
  assert (Hab : a ∈ dom ifc_objects ∧ b ∈ dom ifc_objects).
  { apply (registered_ends_some ifc_objects s v (State ∅ [])). by rewrite Hr. }
  destruct Hab. by apply simulates_write_candidate.
Qed.

Lemma simulates_write_relationship ifc_rel (ifc_objects : gmap Z string)
    l1 nl1 l2 nl2 I :
  l2 ≠ nl2 → I ≠ ∅ →
  simulates ifc_objects l1 nl1 l2 nl2 I
    (write_relationship ifc_objects l1 nl1 ifc_rel)
    (write_relationship ifc_objects l2 nl2 ifc_rel).
Proof.
  intros Hne HI. apply simulates_bind_stateless; [apply stateless_decompose|].
  intros s _. apply simulates_bind_stateless; [apply stateless_iter|].
  intros vs _. apply simulates_for_each; [done|].
  intros v. by apply simulates_write_edge.
Qed.

Lemma simulates_write_relationships ifc_file (ifc_objects : gmap Z string)
    l1 nl1 l2 nl2 I :
  l2 ≠ nl2 → I ≠ ∅ →
  simulates ifc_objects l1 nl1 l2 nl2 I
    (write_relationships ifc_file ifc_objects l1 nl1)
    (write_relationships ifc_file ifc_objects l2 nl2).
Proof.
  intros Hne HI. apply simulates_for_each; [done|].
  intros r. by apply simulates_write_relationship.
Qed.

(** ** The third loop of a filtered call returns when the unfiltered one does *)

Lemma bind_dot_write {B} s (k : unit → M B) σ :
  bind (dot_write s) k σ = k tt (State (sets σ) (dot σ ++ [s])).
Proof. done. Qed.

Lemma for_each_returns_too {A} (xs : list A) (body1 body2 : A → M unit)
    (P1 P2 : state → Prop) :
  (∀ x, preserves P1 (body1 x)) → (∀ x, preserves P2 (body2 x)) →
  (∀ x σ1 σ2, P1 σ1 → P2 σ2 → (body1 x σ1).1 = Ok tt → (body2 x σ2).1 = Ok tt) →
  ∀ σ1 σ2, P1 σ1 → P2 σ2 →
    (for_each xs body1 σ1).1 = Ok tt → (for_each xs body2 σ2).1 = Ok tt.
Proof.
  intros H1 H2 Hbody. induction xs as [|x xs IH]; intros σ1 σ2 HP1 HP2; [done|].
  simpl. unfold bind.
  pose proof (H1 x σ1 HP1) as HP1'. pose proof (H2 x σ2 HP2) as HP2'.
  specialize (Hbody x σ1 σ2 HP1 HP2).
  destruct (body1 x σ1) as [[[]|e1] σ1']; [|done].
  destruct (body2 x σ2) as [[[]|e2] σ2']; [|by specialize (Hbody eq_refl)].
  by apply IH.
Qed.

Lemma bind_dict_get {B} (d : gmap Z string) k (f : string → M B) σ :
  bind (dict_get d k) f σ
  = match d !! k with Some v => f v σ | None => (Raise KeyError, σ) end.
Proof. unfold bind, dict_get. by destruct (d !! k). Qed.

Lemma then_dot_write_result (m : M unit) s σ :
  ((m >> dot_write s) σ).1 = Ok tt ↔ (m σ).1 = Ok tt.
Proof. unfold bind. by destruct (m σ) as [[[]|?] ?]. Qed.

Lemma cluster_returns_too (ifc_objects : gmap Z string) l1 l2 I depth e σ1 σ2 :
  sets σ1 !! l1 = Some ∅ → sets σ2 !! l2 = Some I →
  (cluster depth e ifc_objects l1 σ1).1 = Ok tt →
  (cluster depth e ifc_objects l2 σ2).1 = Ok tt.
Proof.
  revert e σ1 σ2. induction depth as [|depth IH]; intros e σ1 σ2 H1 H2; [done|].
  simpl. destruct (is_a e "IfcVirtualElement"); [done|].
  rewrite (bind_ok _ _ _ _ _ (not_of_interest_run _ _ _ _ H1)).
  rewrite (bind_ok _ _ _ _ _ (not_of_interest_run _ _ _ _ H2)).
  rewrite (bool_decide_true (∅ = ∅)) by done. simpl.
  destruct (negb (bool_decide (I = ∅)) && negb (bool_decide (id e ∈ I))); [done|].
  destruct (get_decomposition e) as [|c cs]; [done|].
  rewrite !bind_dot_write, !bind_dict_get.
  destruct (ifc_objects !! id e) as [lbl|]; [|done].
  rewrite !bind_dot_write, !then_dot_write_result.
  apply (for_each_returns_too _ _ _
           (λ σ, sets σ !! l1 = Some ∅) (λ σ, sets σ !! l2 = Some I)); try done.
  - intros x. apply keeps_sets_lookup. intros S0.
    apply (cluster_child_keeps_sets ifc_objects l1 S0
             (λ c, cluster depth c ifc_objects l1)).
    intros c'. apply cluster_keeps_sets.
  - intros x. apply keeps_sets_lookup. intros S0.
    apply (cluster_child_keeps_sets ifc_objects l2 S0
             (λ c, cluster depth c ifc_objects l2)).
    intros c'. apply cluster_keeps_sets.
  - intros x ρ1 ρ2 Hρ1 Hρ2.
    destruct (is_a x "IfcVirtualElement"); [done|].
    rewrite (bind_ok _ _ _ _ _ (not_of_interest_run _ _ _ _ Hρ1)).
    rewrite (bind_ok _ _ _ _ _ (not_of_interest_run _ _ _ _ Hρ2)).
    rewrite (bool_decide_true (∅ = ∅)) by done. simpl.
    destruct (negb (bool_decide (I = ∅)) && negb (bool_decide (id x ∈ I))); [done|].
    rewrite !bind_dict_get.
    destruct (ifc_objects !! id x) as [lbl'|]; [|done].
    rewrite !bind_dot_write. by apply IH.
Qed.

Lemma write_clusters_returns_too ifc_file (ifc_objects : gmap Z string) l1 l2 I σ1 σ2 :
  sets σ1 !! l1 = Some ∅ → sets σ2 !! l2 = Some I →
  (write_clusters ifc_file ifc_objects l1 σ1).1 = Ok tt →
  (write_clusters ifc_file ifc_objects l2 σ2).1 = Ok tt.
Proof.
  apply (for_each_returns_too _ _ _
           (λ σ, sets σ !! l1 = Some ∅) (λ σ, sets σ !! l2 = Some I)).
  - intros x. apply keeps_sets_lookup. intros S0. apply cluster_keeps_sets.
  - intros x. apply keeps_sets_lookup. intros S0. apply cluster_keeps_sets.
  - intros x σ1' σ2'. apply cluster_returns_too.
Qed.

(** ** A filtered call against the unfiltered call *)

Lemma filter_none {A} (P : A → Prop) `{!∀ x, Decision (P x)} (l : list A) :
  Forall (λ x, ¬ P x) l → filter P l = [].
Proof.
  induction 1 as [|x l Hx _ IH]; [done|]. by rewrite filter_cons_False.
Qed.

Lemma filter_none_bool {A} (p : A → bool) (l : list A) :
  Forall (λ x, p x = false) l → filter (λ x, p x) l = [].
Proof.
  intros Hl. apply filter_none. eapply Forall_impl; [exact Hl|].
  intros x Hx. simpl in Hx. by apply Is_true_false.
Qed.

Lemma filter_agree {A} (P Q : A → Prop) `{!∀ x, Decision (P x)} `{!∀ x, Decision (Q x)}
    (l : list A) :
  Forall (λ x, P x ↔ Q x) l → filter P l = filter Q l.
Proof.
  induction 1 as [|x l Hx _ IH]; [done|].
  rewrite !filter_cons, IH. destruct (decide (P x)), (decide (Q x)); tauto.
Qed.

Lemma node_stmts_nodes I objs : Forall (λ s, is_node_stmt s = true) (node_stmts I objs).
Proof.
  apply Forall_forall. intros s (o & _ & _ & _ & ->)%node_stmts_elem. done.
Qed.

Lemma node_stmts_filter I objs :
  I ≠ ∅ → node_stmts I objs = filter (in_interest I) (node_stmts ∅ objs).
Proof.
  intros HI. induction objs as [|o objs IH]; [done|].
  change (o :: objs) with ([o] ++ objs). rewrite !node_stmts_app, filter_app, <- IH.
  f_equal. unfold node_stmts. simpl.
  destruct (is_a o "IfcVirtualElement"); [done|].
  rewrite (bool_decide_false (I = ∅)), (bool_decide_true (∅ = ∅)) by done. simpl.
  rewrite filter_cons, filter_nil. unfold in_interest. simpl.
  by destruct (bool_decide (id o ∈ I)).
Qed.

Lemma edge_ok_edge (ifc_objects : gmap Z string) s :
  edge_ok ifc_objects s → is_edge_stmt s = true ∧ is_node_stmt s = false.
Proof. by destruct s. Qed.

Lemma cluster_ok_other ifc_file (ifc_objects : gmap Z string) s :
  cluster_ok ifc_file ifc_objects s → is_edge_stmt s = false ∧ is_node_stmt s = false.
Proof. by destruct s. Qed.

Lemma frontier_no_edge I out :
  Forall (λ s, is_edge_stmt s = false) out → frontier I out = ∅.
Proof.
  induction 1 as [|s out Hs _ IH]; [done|].
  change (s :: out) with ([s] ++ out). rewrite frontier_app, IH.
  unfold frontier. simpl. destruct s; try done.
  all: by rewrite !(right_id_L ∅ (∪)).
Qed.

Lemma write_dot_filtered ifc_file l0 σ0 nl0 l I σ :
  sets σ0 !! l0 = Some ∅ →
  (write_dot ifc_file l0 σ0).1 = Ok nl0 →
  sets σ !! l = Some I → I ≠ ∅ →
  let full := dot (write_dot ifc_file l0 σ0).2 in
  let nl := fresh (dom (sets σ)) in
  ∃ out,
    write_dot ifc_file l σ
    = (Ok nl, State (<[nl := I ∪ frontier I full]> (sets σ)) out)
    ∧ filter (λ s, node_or_edge s) out
      = filter (λ s, node_or_edge s && in_interest I s) full.
Proof.
  intros H0 Hfull HI Hne full nl. subst full. revert Hfull.
  unfold write_dot.
  rewrite (bind_ok _ _ _ _ _ (set_copy_run _ _ _ H0)).
  rewrite (bind_ok _ _ _ _ _ (set_copy_run _ _ _ HI)). fold nl.
  set (n0 := fresh (dom (sets σ0))).
  assert (Hn0 : l0 ≠ n0) by by eapply fresh_loc_ne.
  assert (Hnl : l ≠ nl) by by eapply fresh_loc_ne.
  set (header := [Line "strict graph G {";
                  Line "graph [overlap=false,splines=true,rankdir=LR];"]).
  set (objs := self <$> by_type ifc_file "IfcObject").
  set (reg := ifc_objects_of ifc_file).
  set (rest l nl := let! ifc_objects := write_objects ifc_file l in
                   write_relationships ifc_file ifc_objects l nl >>
                   write_clusters ifc_file ifc_objects l >>
                   dot_write (Line "}") >> ret nl).
  change ((rest l0 n0 (State (<[n0 := ∅]> (sets σ0)) header)).1 = Ok nl0 →
          ∃ out, rest l nl (State (<[nl := I]> (sets σ)) header)
                 = (Ok nl, State (<[nl := I ∪ frontier I
                      (dot (rest l0 n0 (State (<[n0 := ∅]> (sets σ0)) header)).2)]>
                      (sets σ)) out)
                 ∧ filter (λ s, node_or_edge s) out
                   = filter (λ s, node_or_edge s && in_interest I s)
                       (dot (rest l0 n0 (State (<[n0 := ∅]> (sets σ0)) header)).2)).
  unfold rest.
  assert (H0' : sets (State (<[n0 := ∅]> (sets σ0)) header) !! l0 = Some ∅)
    by (by simpl; rewrite lookup_insert_ne).
  assert (HI' : sets (State (<[nl := I]> (sets σ)) header) !! l = Some I)
    by (by simpl; rewrite lookup_insert_ne).
  set (τ0 := State (<[n0 := ∅]> (sets σ0)) (header ++ node_stmts ∅ objs)).
  set (τ0' := State (<[nl := I]> (sets σ)) (header ++ node_stmts I objs)).
  assert (E0 : write_objects ifc_file l0 (State (<[n0 := ∅]> (sets σ0)) header)
               = (Ok reg, τ0)) by (by apply (write_objects_run ifc_file l0 ∅)).
  assert (E0' : write_objects ifc_file l (State (<[nl := I]> (sets σ)) header)
                = (Ok reg, τ0')) by (by apply (write_objects_run ifc_file l I)).
  rewrite (bind_ok _ _ _ _ _ E0), (bind_ok _ _ _ _ _ E0').
  destruct (write_relationships ifc_file reg l0 n0 τ0) as [[[]|e] τ1] eqn:E1;
    [|rewrite (bind_raise _ _ _ _ _ E1); simpl; intros [=]].
  rewrite (bind_ok _ _ _ _ _ E1).
  assert (Hl0 : sets τ0 !! l0 = Some ∅) by (by unfold τ0; simpl; rewrite lookup_insert_ne).
  assert (Hl0n : sets τ0 !! n0 = Some ∅) by (by unfold τ0; simpl; rewrite lookup_insert_eq).
  assert (Hl : sets τ0' !! l = Some I) by (by unfold τ0'; simpl; rewrite lookup_insert_ne).
  assert (Hln : sets τ0' !! nl = Some I) by (by unfold τ0'; simpl; rewrite lookup_insert_eq).
  destruct (simulates_write_relationships ifc_file reg l0 n0 l nl I Hnl Hne
              τ0 τ0' ∅ I τ1 Hl0 Hl0n Hl Hln E1) as (ext & Hext & -> & E1').
  rewrite (bind_ok _ _ _ _ _ E1').
  set (τ1 := State (sets τ0) (dot τ0 ++ ext)).
  set (τ1' := State (<[nl := I ∪ frontier I ext]> (sets τ0'))
                    (dot τ0' ++ filter (in_interest I) ext)).
  pose proof (write_clusters_preserves ifc_file reg (sets τ1) (dot τ1) l0 τ1
                (conj eq_refl (appends_refl _ _))) as H2.
  pose proof (write_clusters_preserves ifc_file reg (sets τ1') (dot τ1') l τ1'
                (conj eq_refl (appends_refl _ _))) as H2'.
  pose proof (write_clusters_returns_too ifc_file reg l0 l I τ1 τ1') as Hret.
  destruct (write_clusters ifc_file reg l0 τ1) as [[[]|e] τ2] eqn:E2;
    [|rewrite (bind_raise _ _ _ _ _ E2); simpl; intros [=]].
  rewrite (bind_ok _ _ _ _ _ E2).
  destruct (write_clusters ifc_file reg l τ1') as [[[]|e] τ2'] eqn:E2'.
  2:{ exfalso. enough (Raise e = Ok ()) by done. apply Hret; [done| |done].
      unfold τ1'. simpl. by rewrite lookup_insert_ne. }
  rewrite (bind_ok _ _ _ _ _ E2'). clear Hret.
  destruct H2 as (_ & cl & Hcl & Hclok). destruct H2' as (Hsets' & cl' & Hcl' & Hclok').
  intros _. cbn [fst snd]. rewrite !bind_dot_write. unfold ret. cbn [fst snd dot].
  exists (dot τ2' ++ [Line "}"]).
  rewrite Hcl, Hcl', Hsets'. unfold τ1', τ1, τ0', τ0. cbn [sets dot]. split.
  - f_equal. f_equal. rewrite insert_insert_eq. f_equal. f_equal.
    rewrite !frontier_app.
    rewrite (frontier_no_edge I header) by (by repeat constructor).
    rewrite (frontier_no_edge I (node_stmts ∅ objs)).
    2:{ eapply Forall_impl; [apply node_stmts_nodes|]. by intros []. }
    rewrite (frontier_no_edge I cl).
    2:{ eapply Forall_impl; [exact Hclok|]. intros s Hs.
        by destruct (cluster_ok_other _ _ _ Hs). }
    rewrite (frontier_no_edge I [Line "}"]) by (by repeat constructor).
    by rewrite !(right_id_L ∅ (∪)), !(left_id_L ∅ (∪)).
  - rewrite !filter_app.
    rewrite (filter_none_bool node_or_edge header) by (by repeat constructor).
    rewrite (filter_none_bool (λ s, node_or_edge s && in_interest I s) header)
      by (by repeat constructor).
    rewrite (filter_none_bool node_or_edge cl').
    2:{ eapply Forall_impl; [exact Hclok'|]. intros s Hs.
        destruct (cluster_ok_other _ _ _ Hs) as [He Hn].
        unfold node_or_edge. by rewrite He, Hn. }
    rewrite (filter_none_bool (λ s, node_or_edge s && in_interest I s) cl).
    2:{ eapply Forall_impl; [exact Hclok|]. intros s Hs.
        destruct (cluster_ok_other _ _ _ Hs) as [He Hn].
        unfold node_or_edge. by rewrite He, Hn. }
    rewrite (filter_none_bool node_or_edge [Line "}"]) by (by repeat constructor).
    rewrite (filter_none_bool (λ s, node_or_edge s && in_interest I s) [Line "}"])
      by (by repeat constructor).
    rewrite !app_nil_r. cbn [app]. f_equal.
    + rewrite (node_stmts_filter I objs Hne).
      rewrite list_filter_filter. apply filter_agree.
      eapply Forall_impl; [apply node_stmts_nodes|]. intros s Hs.
      unfold node_or_edge. rewrite Hs. simpl. tauto.
    + rewrite list_filter_filter. apply filter_agree.
      eapply Forall_impl; [exact Hext|]. intros s Hs.
      destruct (edge_ok_edge _ _ Hs) as [He Hn].
      unfold node_or_edge. rewrite He, Hn. simpl. tauto.
Qed.

(** ** Expanding the interest set until it is stable *)

Lemma elem_of_frontier I out x :
  x ∈ frontier I out ↔ ∃ s, s ∈ out ∧ x ∈ edge_frontier I s.
Proof.
  unfold frontier. rewrite elem_of_union_list. split.
  - intros (X & (s & -> & Hs)%list_elem_of_fmap & Hx). by exists s.
  - intros (s & Hs & Hx). exists (edge_frontier I s). split; [|done].
    apply list_elem_of_fmap. by exists s.
Qed.

Lemma frontier_new I out x :
  x ∈ frontier I out →
  (x ∉ I) ∧ x ∈ ids_of out ∧ ∃ a, a ∈ I ∧ adjacent out a x.
Proof.
  intros (s & Hs & Hx)%elem_of_frontier.
  assert (Hids : ∀ n, n ∈ stmt_ids s → n ∈ ids_of out).
  { intros n Hn. unfold ids_of. apply elem_of_list_to_set, list_elem_of_bind.
    by exists s. }
  destruct s as [|?|a b la lb w st|?|?]; simpl in Hx;
    try by apply not_elem_of_empty in Hx.
  do 2 case_bool_decide; try by apply not_elem_of_empty in Hx.
  - apply elem_of_singleton in Hx as ->. split; [done|]. split.
    + apply Hids. simpl. apply elem_of_cons. right. by apply elem_of_cons; left.
    + exists a. split; [done|]. exists la, lb, w, st. by left.
  - apply elem_of_singleton in Hx as ->. split; [done|]. split.
    + apply Hids. simpl. by apply elem_of_cons; left.
    + exists b. split; [done|]. exists la, lb, w, st. by right.
Qed.

Lemma frontier_neighbour I out a b :
  a ∈ I → adjacent out a b → b ∈ I ∨ b ∈ frontier I out.
Proof.
  intros Ha (la & lb & w & st & Hedge).
  destruct (decide (b ∈ I)) as [Hb|Hb]; [by left|]. right.
  apply elem_of_frontier. destruct Hedge as [Hs | Hs]; eexists; (split; [exact Hs|]);
    simpl; rewrite (bool_decide_true (a ∈ I)), (bool_decide_false (b ∈ I)) by done;
    by apply elem_of_singleton.
Qed.

Lemma expand_unfold rounds ifc_file interest :
  expand rounds ifc_file interest
  = (let! new_interest := write_dot ifc_file interest in
     let! stable := set_eq new_interest interest in
     if stable then ret new_interest
     else
       match rounds with
       | O => raise RecursionError
       | S rounds => expand rounds ifc_file new_interest
       end).
Proof. by destruct rounds. Qed.

Lemma set_eq_run l1 l2 X Y σ :
  sets σ !! l1 = Some X → sets σ !! l2 = Some Y →
  set_eq l1 l2 σ = (Ok (bool_decide (X = Y)), σ).
Proof. unfold set_eq. by intros -> ->. Qed.

Lemma expand_closes ifc_file l0 σ0 nl0 (I0 : gset Z) :
  sets σ0 !! l0 = Some ∅ →
  (write_dot ifc_file l0 σ0).1 = Ok nl0 →
  let full := dot (write_dot ifc_file l0 σ0).2 in
  ∀ n I l σ,
    (size (ids_of full ∖ I) ≤ n)%nat →
    sets σ !! l = Some I → I ≠ ∅ → I0 ⊆ I →
    (∀ x, x ∈ I → reachable full I0 x) →
    ∃ rounds lf σf C,
      expand rounds ifc_file l σ = (Ok lf, σf)
      ∧ sets σf !! lf = Some C
      ∧ (∀ x, x ∈ C ↔ reachable full I0 x)
      ∧ filter (λ s, node_or_edge s) (dot σf)
        = filter (λ s, node_or_edge s && in_interest C s) full.
Proof.
  intros H0 Hfull full n.
  induction n as [|n IH]; intros I l σ Hsize HI Hne HI0 Hreach.
  all: destruct (write_dot_filtered ifc_file l0 σ0 nl0 l I σ H0 Hfull HI Hne)
         as (out & Erun & Hout); fold full in Erun, Hout.
  all: set (nl := fresh (dom (sets σ))) in *.
  all: assert (Hnl : l ≠ nl) by by eapply fresh_loc_ne.
  all: set (σ' := State (<[nl := I ∪ frontier I full]> (sets σ)) out) in *.
  all: assert (Hl' : sets σ' !! l = Some I) by (by simpl; rewrite lookup_insert_ne).
  all: assert (Hnl' : sets σ' !! nl = Some (I ∪ frontier I full))
         by (by simpl; rewrite lookup_insert_eq).
  all: assert (Hstable : I ∪ frontier I full = I →
         ∃ rounds lf σf C,
           expand rounds ifc_file l σ = (Ok lf, σf)
           ∧ sets σf !! lf = Some C
           ∧ (∀ x, x ∈ C ↔ reachable full I0 x)
           ∧ filter (λ s, node_or_edge s) (dot σf)
             = filter (λ s, node_or_edge s && in_interest C s) full).
  1,3: intros Heq; exists 0, nl, σ', I; split; [|split; [|split]].
  1,5: rewrite expand_unfold, (bind_ok _ _ _ _ _ Erun),
         (bind_ok _ _ _ _ _ (set_eq_run _ _ _ _ _ Hnl' Hl')); by rewrite bool_decide_true.
  1,4: by rewrite Hnl', Heq.
  1,3: intros x; split; [by apply Hreach|];
       induction 1 as [x Hx | a b _ IHa Hadj]; [by apply HI0|];
       destruct (frontier_neighbour I full a b IHa Hadj) as [Hb | Hb]; [done|];
       rewrite <- Heq; apply elem_of_union; by right.
  1,2: done.
  all: destruct (decide (I ∪ frontier I full = I)) as [Heq | Hgrow]; [by apply Hstable|].
  all: assert (∃ x, x ∈ frontier I full) as [x Hx].
  1,3: apply set_choose_L; intros Hempty; apply Hgrow; rewrite Hempty;
       by rewrite (right_id_L ∅ (∪)).
  all: destruct (frontier_new I full x Hx) as (HxI & HxV & _).
  all: assert (Hlt : (size (ids_of full ∖ (I ∪ frontier I full)) < size (ids_of full ∖ I))%nat).
  1,3: apply subset_size; split;
       [ intros y [Hy1 Hy2]%elem_of_difference; apply elem_of_difference;
         split; [done|]; intros Hy; apply Hy2, elem_of_union; by left
       | intros Hsub; assert (Hin : x ∈ ids_of full ∖ I)
            by (by apply elem_of_difference);
         apply Hsub, elem_of_difference in Hin as [_ Hin];
         apply Hin, elem_of_union; by right ].
  { lia. }
  destruct (IH (I ∪ frontier I full) nl σ') as (rounds & lf & σf & C & Hrun & HC & Hreach' & Hdot).
  - lia.
  - done.
  - destruct (set_choose_L I Hne) as [y Hy].
    apply (non_empty_inhabited_L y). apply elem_of_union. by left.
  - intros y Hy. apply elem_of_union. left. by apply HI0.
  - intros y [Hy | Hy]%elem_of_union; [by apply Hreach|].
    destruct (frontier_new I full y Hy) as (_ & _ & a & Ha & Hadj).
    eapply reachable_step; [apply Hreach, Ha | done].
  - exists (S rounds), lf, σf, C. split; [|done].
    rewrite expand_unfold, (bind_ok _ _ _ _ _ Erun),
      (bind_ok _ _ _ _ _ (set_eq_run _ _ _ _ _ Hnl' Hl')).
    by rewrite bool_decide_false.
Qed.

Lemma in_interest_spec I s : in_interest I s ↔ ∀ n, n ∈ stmt_ids s → n ∈ I.
Proof.
  unfold in_interest. rewrite forallb_True, Forall_forall.
  split; intros H n Hn; specialize (H n Hn).
  - by apply bool_decide_unpack in H.
  - by apply bool_decide_pack.
Qed.

(** C3, amended.  Take a model on which the call with an empty interest set
    returns, and a non-empty interest set [I].  Calling [write_dot] again and
    again with the set it returned stops after finitely many calls; the set
    then returned holds exactly the ids reachable from [I] in the edge graph
    of the unfiltered output, and the node and edge statements of the last
    call are those of the unfiltered output all of whose ids are reachable
    from [I]. *)
Theorem expansion_reaches_component ifc_file l I σ l0 σ0 nl0 :
  sets σ !! l = Some I → I ≠ ∅ →
  sets σ0 !! l0 = Some ∅ →
  (write_dot ifc_file l0 σ0).1 = Ok nl0 →
  let full := dot (write_dot ifc_file l0 σ0).2 in
  ∃ rounds lf σf C,
    expand rounds ifc_file l σ = (Ok lf, σf)
    ∧ sets σf !! lf = Some C
    ∧ (∀ x, x ∈ C ↔ reachable full I x)
    ∧ restricted_to_reachable full I (dot σf).
Proof.
  intros HI Hne H0 Hfull full.
  destruct (expand_closes ifc_file l0 σ0 nl0 I H0 Hfull
              (size (ids_of full ∖ I)) I l σ)
    as (rounds & lf & σf & C & Hrun & HC & Hreach & Hdot); try done.
  { intros x Hx. by apply reachable_start. }
  exists rounds, lf, σf, C. split; [done|]. split; [done|]. split; [done|].
  intros s Hs.
  assert (Hleft : s ∈ dot σf ↔ s ∈ filter (λ s, node_or_edge s) (dot σf)).
  { rewrite list_elem_of_filter. split; [|by intros [_ ?]].
    intros Hin. split; [by apply Is_true_true|done]. }
  rewrite Hleft, Hdot. fold full. rewrite list_elem_of_filter, andb_True, in_interest_spec.
  split.
  - intros [[_ Hin] Hfullin]. split; [done|]. intros n Hn. by apply Hreach, Hin.
  - intros [Hfullin Hin]. split; [|done]. split; [by apply Is_true_true|].
    intros n Hn. by apply Hreach, Hin.
Qed.

(** ** Further properties of the interest filter *)

Lemma write_candidate_unfiltered_run (ifc_objects : gmap Z string) l nl a b la lb w st σ :
  sets σ !! l = Some ∅ →
  ifc_objects !! a = Some la → ifc_objects !! b = Some lb →
  write_candidate ifc_objects l nl a b w st σ
  = (Ok tt, State (sets σ) (dot σ ++ [EdgeStmt a b la lb w st])).
Proof.
  intros HI Ha Hb. unfold write_candidate.
  rewrite (bind_ok _ _ _ _ _ (set_bool_run _ _ _ HI)).
  rewrite bool_decide_true by done. cbn [negb].
  rewrite (bind_ok _ _ _ _ _ (dict_get_run _ _ _ _ Ha)).
  by rewrite (bind_ok _ _ _ _ _ (dict_get_run _ _ _ _ Hb)).
Qed.

Lemma write_relationships_unfiltered_keeps_sets ifc_file (ifc_objects : gmap Z string)
    l nl S0 :
  S0 !! l = Some ∅ →
  preserves (λ σ, sets σ = S0) (write_relationships ifc_file ifc_objects l nl).
Proof.
  intros HS. apply triple_for_each. intros ifc_rel _. unfold write_relationship.
  eapply triple_bind; [apply preserves_pure, pure_decompose|]. intros s.
  eapply triple_bind; [apply preserves_pure, pure_iter|]. intros vs.
  apply triple_for_each. intros v _. unfold write_edge.
  eapply triple_bind; [apply preserves_pure, pure_registered_ends|].
  intros [[a b]|]; [|by apply triple_ret].
  intros σ Hσ. unfold write_candidate.
  assert (HI : sets σ !! l = Some ∅) by (by rewrite Hσ).
  rewrite (bind_ok _ _ _ _ _ (set_bool_run _ _ _ HI)).
  rewrite bool_decide_true by done. cbn [negb].
  revert σ Hσ HI. intros σ Hσ _. revert σ Hσ.
  change (preserves (λ σ, sets σ = S0)
            (let! label_a := dict_get ifc_objects a in
             let! label_b := dict_get ifc_objects b in
             dot_write (EdgeStmt a b label_a label_b (weight s) (style s)))).
  eapply triple_bind; [apply preserves_pure, pure_dict_get|]. intros la.
  eapply triple_bind; [apply preserves_pure, pure_dict_get|]. intros lb.
  by apply triple_dot_write.
Qed.

(** X1. A call with an empty interest set adds nothing to the next
    interest: whether it returns or raises, the store after the call is the
    store before it with one new, empty set, and that set is the one a
    returning call hands back. *)
Theorem unfiltered_call_adds_nothing ifc_file l σ :
  sets σ !! l = Some ∅ →
  let run := write_dot ifc_file l σ in
  sets run.2 = <[fresh (dom (sets σ)) := ∅]> (sets σ)
  ∧ ∀ nl, run.1 = Ok nl → sets run.2 !! nl = Some ∅.
Proof.
  intros HI run. subst run.
  assert (Hsets : sets (write_dot ifc_file l σ).2 = <[fresh (dom (sets σ)) := ∅]> (sets σ)).
  { unfold write_dot. rewrite (bind_ok _ _ _ _ _ (set_copy_run _ _ _ HI)).
    set (nl := fresh (dom (sets σ))).
    assert (Hne : l ≠ nl) by by eapply fresh_loc_ne.
    set (S1 := <[nl := ∅]> (sets σ)).
    assert (HS1 : S1 !! l = Some ∅) by (by unfold S1; rewrite lookup_insert_ne).
    assert (H : preserves (λ σ', sets σ' = S1)
                  (open_dot >>
                   dot_write (Line "strict graph G {") >>
                   dot_write (Line "graph [overlap=false,splines=true,rankdir=LR];") >>
                   let! ifc_objects := write_objects ifc_file l in
                   write_relationships ifc_file ifc_objects l nl >>
                   write_clusters ifc_file ifc_objects l >>
                   dot_write (Line "}") >> ret nl)).
    { eapply (triple_bind _ _ _ (λ _ σ', sets σ' = S1)); [by intros σ' Hσ'|]. intros [].
      eapply triple_bind; [by apply triple_dot_write|]. intros [].
      eapply triple_bind; [by apply triple_dot_write|]. intros [].
      eapply (triple_bind _ _ _ (λ _ σ', sets σ' = S1)).
      { intros σ' Hσ'.
        assert (HI' : sets σ' !! l = Some ∅) by (by rewrite Hσ').
        by rewrite (write_objects_run _ _ _ _ HI'). }
      intros ifc_objects.
      eapply triple_bind; [by apply write_relationships_unfiltered_keeps_sets|]. intros [].
      eapply triple_bind.
      { apply triple_for_each. intros e _. apply cluster_keeps_sets. }
      intros []. eapply triple_bind; [by apply triple_dot_write|]. intros [].
      by apply triple_ret. }
    specialize (H (State S1 (dot σ)) eq_refl).
    by destruct ((open_dot >> _) (State S1 (dot σ))) as [[?|?] ?]. }
  split; [done|]. intros nl Hnl.
  destruct (write_dot_outcome ifc_file l ∅ σ HI) as ([Hok | [e He]] & _); [|congruence].
  rewrite Hok in Hnl. injection Hnl as <-. by rewrite Hsets, lookup_insert_eq.
Qed.

(** X2. When the unfiltered call returns, a call with a non-empty interest
    set [I] returns too, and the set it returns holds exactly the ids of [I]
    and the ids joined to an id of [I] by an edge of the unfiltered output:
    one hop, no more. *)
Theorem filtered_call_one_hop ifc_file l0 σ0 nl0 l I σ :
  sets σ0 !! l0 = Some ∅ →
  (write_dot ifc_file l0 σ0).1 = Ok nl0 →
  sets σ !! l = Some I → I ≠ ∅ →
  let full := dot (write_dot ifc_file l0 σ0).2 in
  let run := write_dot ifc_file l σ in
  ∃ nl NI,
    run.1 = Ok nl ∧ sets run.2 !! nl = Some NI
    ∧ ∀ x, x ∈ NI ↔ x ∈ I ∨ ∃ a, a ∈ I ∧ adjacent full a x.
Proof.
  intros H0 Hfull HI Hne full run. subst run.
  destruct (write_dot_filtered ifc_file l0 σ0 nl0 l I σ H0 Hfull HI Hne)
    as (out & -> & _). fold full.
  eexists _, _. split; [done|]. split; [by simpl; rewrite lookup_insert_eq|].
  intros x. rewrite elem_of_union. split.
  - intros [Hx | Hx]; [by left|]. right.
    by destruct (frontier_new I full x Hx) as (_ & _ & Hadj).
  - intros [Hx | (a & Ha & Hadj)]; [by left|].
    by apply (frontier_neighbour I full a x).
Qed.

(** X3. When the unfiltered call returns, the node and edge statements of a
    call with a non-empty interest set [I] are, in the same order, the node
    and edge statements of the unfiltered output all of whose ids are in
    [I]: the subgraph induced by [I]. *)
Theorem filtered_call_induced_subgraph ifc_file l0 σ0 nl0 l I σ :
  sets σ0 !! l0 = Some ∅ →
  (write_dot ifc_file l0 σ0).1 = Ok nl0 →
  sets σ !! l = Some I → I ≠ ∅ →
  filter (λ s, node_or_edge s) (dot (write_dot ifc_file l σ).2)
  = filter (λ s, node_or_edge s && in_interest I s) (dot (write_dot ifc_file l0 σ0).2).
Proof.
  intros H0 Hfull HI Hne.
  by destruct (write_dot_filtered ifc_file l0 σ0 nl0 l I σ H0 Hfull HI Hne)
    as (out & -> & Hout).
Qed.

(** ** Edge and error behaviour of the second loop *)

Lemma pure_run {A} (m : M A) σ r : pure m → (m σ).1 = r → m σ = (r, σ).
Proof. intros Hm Hr. specialize (Hm σ). destruct (m σ); simpl in *. by subst. Qed.

(** X5. A relationship whose relating reference is unset while it has at
    least one related object raises [AttributeError], and one whose related
    aggregate is unset raises [TypeError]; in both cases nothing has been
    written or added by that relationship. *)
Theorem unset_reference_raises (ifc_objects : gmap Z string) l nl ifc_rel s σ :
  (decompose ifc_rel σ).1 = Ok s →
  (relating_object s = PyNone →
   ∀ v vs, (iter (related_objects s) σ).1 = Ok (v :: vs) →
           write_relationship ifc_objects l nl ifc_rel σ = (Raise AttributeError, σ))
  ∧ (related_objects s = Attr PyNone →
     write_relationship ifc_objects l nl ifc_rel σ = (Raise TypeError, σ)).
Proof.
  intros Hs. apply (pure_run _ _ _ (pure_decompose ifc_rel)) in Hs.
  unfold write_relationship. rewrite (bind_ok _ _ _ _ _ Hs). split.
  - intros Hnone v vs Hvs. apply (pure_run _ _ _ (pure_iter _)) in Hvs.
    rewrite (bind_ok _ _ _ _ _ Hvs). simpl.
    unfold write_edge, registered_ends, bind. by rewrite Hnone.
  - intros Hnone. by rewrite Hnone.
Qed.

(** X6. The test of the two ends is evaluated left to right: an unset
    related end is skipped without an exception when the relating end is not
    registered, and raises [AttributeError] when it is. *)
Theorem unset_related_end (ifc_objects : gmap Z string) l nl s ea σ :
  relating_object s = PyInstance ea →
  (id ea ∉ dom ifc_objects → write_edge ifc_objects l nl s PyNone σ = (Ok tt, σ))
  ∧ (id ea ∈ dom ifc_objects →
     write_edge ifc_objects l nl s PyNone σ = (Raise AttributeError, σ)).
Proof.
  intros Hs. split.
  - intros Ha. apply (write_edge_unregistered _ _ _ _ _ ea); [done | by left].
  - intros Ha. unfold write_edge, registered_ends, bind. rewrite Hs. simpl.
    by rewrite bool_decide_true.
Qed.

Lemma write_edges_unfiltered (ifc_objects : gmap Z string) l nl s ea es σ :
  sets σ !! l = Some ∅ →
  relating_object s = PyInstance ea →
  for_each (PyInstance <$> es) (write_edge ifc_objects l nl s) σ
  = (Ok tt, State (sets σ) (dot σ ++ omap (edge_for ifc_objects s ea) es)).
Proof.
  intros HI Hs. revert σ HI. induction es as [|e es IH]; intros σ HI.
  { simpl. unfold ret. by rewrite app_nil_r, state_eta. }
  simpl. unfold edge_for at 1.
  destruct (ifc_objects !! id ea) as [la|] eqn:Ea.
  - destruct (ifc_objects !! id e) as [lb|] eqn:Eb.
    + assert (E : write_edge ifc_objects l nl s (PyInstance e) σ
                  = (Ok tt, State (sets σ)
                       (dot σ ++ [EdgeStmt (id ea) (id e) la lb (weight s) (style s)]))).
      { unfold write_edge.
        rewrite (bind_ok _ _ _ _ _
          (registered_ends_run _ _ _ ea e _ Hs eq_refl
             (proj2 (elem_of_dom _ _) (mk_is_Some _ _ Ea))
             (proj2 (elem_of_dom _ _) (mk_is_Some _ _ Eb)))).
        by apply write_candidate_unfiltered_run. }
      rewrite (bind_ok _ _ _ _ _ E), IH by done. simpl.
      by rewrite <- (assoc_L (++)).
    + assert (E : write_edge ifc_objects l nl s (PyInstance e) σ = (Ok tt, σ)).
      { apply (write_edge_unregistered _ _ _ _ _ ea); [done|]. right.
        exists e. split; [done|]. by apply not_elem_of_dom. }
      by rewrite (bind_ok _ _ _ _ _ E), IH.
  - assert (E : write_edge ifc_objects l nl s (PyInstance e) σ = (Ok tt, σ)).
    { apply (write_edge_unregistered _ _ _ _ _ ea); [done|]. left.
      by apply not_elem_of_dom. }
    by rewrite (bind_ok _ _ _ _ _ E), IH.
Qed.

(** X7. With an empty interest set, a relationship whose relating object is
    an instance writes exactly one edge statement for every related object
    that is registered together with the relating object, in the order of
    the related objects, skips the others, and changes no set. *)
Theorem unfiltered_relationship_edges (ifc_objects : gmap Z string) l nl ifc_rel s ea es σ :
  sets σ !! l = Some ∅ →
  (decompose ifc_rel σ).1 = Ok s →
  relating_object s = PyInstance ea →
  (iter (related_objects s) σ).1 = Ok (PyInstance <$> es) →
  write_relationship ifc_objects l nl ifc_rel σ
  = (Ok tt, State (sets σ) (dot σ ++ omap (edge_for ifc_objects s ea) es)).
Proof.
  intros HI Hs Hea Hes.
  apply (pure_run _ _ _ (pure_decompose ifc_rel)) in Hs.
  apply (pure_run _ _ _ (pure_iter _)) in Hes.
  unfold write_relationship.
  rewrite (bind_ok _ _ _ _ _ Hs), (bind_ok _ _ _ _ _ Hes).
  by apply write_edges_unfiltered.
Qed.

(** ** The registry *)


Lemma registry_other objs d k :
  (∀ o, o ∈ objs → is_a o "IfcVirtualElement" = false → id o ≠ k) →
  registry objs d !! k = d !! k.
Proof.
  revert d. induction objs as [|o objs IH]; intros d Hno; [done|].
  change (o :: objs) with ([o] ++ objs). rewrite registry_app, IH.
  - unfold registry. simpl. destruct (is_a o "IfcVirtualElement") eqn:Hv; [done|].
    rewrite lookup_insert_ne; [done|]. apply Hno; [by left | done].
  - intros o' Ho'. apply Hno. by right.
Qed.

(** X9. When several objects carry the same id, the registry keeps the
    label of the last one that is not virtual: the first loop always
    returns, and the entry of an id is the label of the last non-virtual
    object with that id. *)
Theorem last_label_wins l I σ pre o post :
  sets σ !! l = Some I →
  is_a o "IfcVirtualElement" = false →
  (∀ o', o' ∈ post → is_a o' "IfcVirtualElement" = false → id o' ≠ id o) →
  ∃ ifc_objects σ',
    for_fold (pre ++ o :: post) ∅ (write_object l) σ = (Ok ifc_objects, σ')
    ∧ ifc_objects !! id o = Some (label_of o).
Proof.
  intros HI Hv Hpost. eexists _, _. split; [by apply write_objects_fold|].
  rewrite registry_app. change (o :: post) with ([o] ++ post).
  rewrite registry_app, registry_other by done.
  unfold registry. simpl. rewrite Hv. by rewrite lookup_insert_eq.
Qed.

(** ** Recursion of the cluster emitter *)

Lemma for_each_never_returns {A} (xs : list A) (body : A → M unit) (P : state → Prop) x :
  x ∈ xs →
  (∀ y, preserves P (body y)) →
  (∀ σ, P σ → (body x σ).1 ≠ Ok tt) →
  ∀ σ, P σ → (for_each xs body σ).1 ≠ Ok tt.
Proof.
  intros Hx Hpres Hbad. induction xs as [|y ys IH]; intros σ HP.
  { by apply elem_of_nil in Hx. }
  simpl. unfold bind.
  pose proof (Hpres y σ HP) as HP'. pose proof (Hbad σ HP) as Hbad'.
  apply elem_of_cons in Hx as [-> | Hx].
  - by destruct (body y σ) as [[[]|?] ?].
  - destruct (body y σ) as [[[]|?] σ']; [|done]. by apply IH.
Qed.

(** X10. [cluster] keeps no record of the entities it has visited: on an
    entity that is not virtual, passes the interest test and occurs among
    its own decomposition children, the call returns at no recursion
    depth. *)
Theorem cyclic_decomposition_never_returns (ifc_objects : gmap Z string) l I σ e depth :
  e ∈ get_decomposition e →
  is_a e "IfcVirtualElement" = false →
  sets σ !! l = Some I →
  I = ∅ ∨ id e ∈ I →
  (cluster depth e ifc_objects l σ).1 ≠ Ok tt.
Proof.
  intros Hcycle Hv HI Hint.
  assert (Hskip : negb (bool_decide (I = ∅)) && negb (bool_decide (id e ∈ I)) = false).
  { destruct Hint as [-> | Hin]; [by rewrite bool_decide_true|].
    by rewrite (bool_decide_true (id e ∈ I)), andb_false_r. }
  revert σ HI. induction depth as [|depth IH]; intros σ HI; [done|].
  simpl. rewrite Hv.
  rewrite (bind_ok _ _ _ _ _ (not_of_interest_run _ _ _ _ HI)), Hskip.
  revert Hcycle. destruct (get_decomposition e) as [|c cs]; intros Hcycle.
  { by apply elem_of_nil in Hcycle. }
  rewrite !bind_dot_write, bind_dict_get.
  destruct (ifc_objects !! id e) as [lbl|]; [|done].
  rewrite bind_dot_write, then_dot_write_result.
  apply (for_each_never_returns _ _ (λ σ, sets σ !! l = Some I) e); try done.
  - intros x. apply keeps_sets_lookup. intros S0.
    apply (cluster_child_keeps_sets ifc_objects l S0
             (λ c, cluster depth c ifc_objects l)).
    intros c'. apply cluster_keeps_sets.
  - intros ρ Hρ. rewrite Hv.
    rewrite (bind_ok _ _ _ _ _ (not_of_interest_run _ _ _ _ Hρ)), Hskip.
    rewrite bind_dict_get. destruct (ifc_objects !! id e) as [lbl'|]; [|done].
    rewrite bind_dot_write. by apply IH.
Qed.

(** ** Calls that return *)

Lemma triple_for_each_any {A} (xs : list A) (body : A → M unit) (P E : state → Prop) :
  (∀ x, x ∈ xs → triple P (body x) (λ _, P) E) →
  triple P (for_each xs body) (λ _, P) E.
Proof.
  induction xs as [|x xs IH]; intros Hbody; simpl.
  - by apply triple_ret.
  - eapply triple_bind; [apply Hbody; left|].
    intros []. apply IH. intros y Hy. apply Hbody. by right.
Qed.

Lemma triple_dot_write_any s (P : state → Prop) (Q : unit → state → Prop) E :
  (∀ σ, P σ → Q tt (State (sets σ) (dot σ ++ [s]))) → triple P (dot_write s) Q E.
Proof. intros H σ HP. by apply H. Qed.

Lemma triple_returns {A} (m : M A) (P : state → Prop) :
  preserves P m → (∀ σ, P σ → ∃ a σ', m σ = (Ok a, σ')) →
  triple P m (λ _, P) (λ _, False).
Proof.
  intros Hm Hok σ HP. specialize (Hm σ HP). destruct (Hok σ HP) as (a & σ' & E).
  by rewrite E in *.
Qed.

Lemma write_edge_returns (ifc_objects : gmap Z string) S0 l nl I D s ea e :
  S0 !! l = Some I → l ≠ nl →
  relating_object s = PyInstance ea →
  triple (edges_inv ifc_objects S0 nl I D)
         (write_edge ifc_objects l nl s (PyInstance e))
         (λ _, edges_inv ifc_objects S0 nl I D) (λ _, False).
Proof.
  intros Hl Hne Hs. apply triple_returns; [by apply write_edge_preserves|].
  intros σ (Hframe & (NI & HNI & _) & _).
  assert (HI : sets σ !! l = Some I) by (by rewrite Hframe).
  destruct (ifc_objects !! id ea) as [la|] eqn:Ea.
  - destruct (ifc_objects !! id e) as [lb|] eqn:Eb.
    + unfold write_edge.
      rewrite (bind_ok _ _ _ _ _
        (registered_ends_run _ _ _ ea e _ Hs eq_refl
           (proj2 (elem_of_dom _ _) (mk_is_Some _ _ Ea))
           (proj2 (elem_of_dom _ _) (mk_is_Some _ _ Eb)))).
      rewrite (write_candidate_run _ _ _ _ _ _ _ _ _ _ _ _ Ea Eb HI HNI).
      repeat case_bool_decide; eauto.
    + eexists _, _. apply (write_edge_unregistered _ _ _ _ _ ea); [done|]. right.
      exists e. split; [done|]. by apply not_elem_of_dom.
  - eexists _, _. apply (write_edge_unregistered _ _ _ _ _ ea); [done|]. left.
    by apply not_elem_of_dom.
Qed.

Lemma write_relationship_returns (ifc_objects : gmap Z string) S0 l nl I D ifc_rel :
  S0 !! l = Some I → l ≠ nl →
  well_formed_relationship ifc_rel →
  triple (edges_inv ifc_objects S0 nl I D)
         (write_relationship ifc_objects l nl ifc_rel)
         (λ _, edges_inv ifc_objects S0 nl I D) (λ _, False).
Proof.
  intros Hl Hne (s & es & Hs & Hes & Hrel) σ HP. unfold write_relationship.
  rewrite (bind_ok _ _ _ _ _ (Hs σ)), (bind_ok _ _ _ _ _ (Hes σ)).
  destruct Hrel as [-> | [ea Hea]]; [done|].
  revert σ HP. apply triple_for_each_any.
  intros v (e & -> & _)%list_elem_of_fmap. by apply (write_edge_returns _ _ _ _ _ _ _ ea).
Qed.

Lemma cluster_returns (ifc_objects : gmap Z string) l I rank depth e :
  well_founded_decomposition ifc_objects rank →
  rank e < depth →
  (is_a e "IfcVirtualElement" = false → id e ∈ dom ifc_objects) →
  triple (λ σ, sets σ !! l = Some I) (cluster depth e ifc_objects l)
         (λ _ σ, sets σ !! l = Some I) (λ _, False).
Proof.
  intros Hwf. revert e. induction depth as [|depth IH]; intros e Hrank He σ HI; [lia|].
  simpl. destruct (is_a e "IfcVirtualElement") eqn:Hv; [done|].
  rewrite (bind_ok _ _ _ _ _ (not_of_interest_run _ _ _ _ HI)).
  destruct (negb (bool_decide (I = ∅)) && negb (bool_decide (id e ∈ I))); [done|].
  pose proof (Hwf e) as Hchildren.
  destruct (get_decomposition e) as [|c cs]; [done|].
  rewrite !bind_dot_write, bind_dict_get.
  destruct (proj1 (elem_of_dom _ _) (He eq_refl)) as [lbl ->].
  rewrite bind_dot_write.
  match goal with |- context [bind _ _ ?τ] => generalize τ, (eq_refl : sets τ !! l = sets σ !! l) end.
  intros τ Hτ. rewrite HI in Hτ. revert τ Hτ.
  apply (triple_bind _ _ _ (λ _ σ, sets σ !! l = Some I)).
  2:{ intros []. by apply triple_dot_write_any. }
  apply triple_for_each_any. intros child Hchild ρ Hρ.
  destruct (is_a child "IfcVirtualElement") eqn:Hvc; [done|].
  rewrite (bind_ok _ _ _ _ _ (not_of_interest_run _ _ _ _ Hρ)).
  destruct (negb (bool_decide (I = ∅)) && negb (bool_decide (id child ∈ I))); [done|].
  destruct (Hchildren child Hchild Hvc) as [Hreg Hlt].
  rewrite bind_dict_get. destruct (proj1 (elem_of_dom _ _) Hreg) as [lbl' ->].
  rewrite bind_dot_write. apply IH; [lia | done | done].
Qed.

(** X11. On a model whose relationships are all well formed, whose
    decomposition is well founded over registered children, and whose
    top-level sites lie below the recursion limit and are registered unless
    virtual, a call with any interest set returns, and it returns the set it
    created. *)
Theorem write_dot_returns ifc_file l I σ rank :
  sets σ !! l = Some I →
  (∀ r, r ∈ by_type ifc_file "IfcRelationship" → well_formed_relationship r) →
  well_founded_decomposition (ifc_objects_of ifc_file) rank →
  (∀ i, i ∈ by_type ifc_file "IfcSite" →
        rank (self i) < recursion_limit
        ∧ (is_a (self i) "IfcVirtualElement" = false →
           id (self i) ∈ dom (ifc_objects_of ifc_file))) →
  (write_dot ifc_file l σ).1 = Ok (fresh (dom (sets σ))).
Proof.
  intros HI Hrels Hwf Hsites. unfold write_dot.
  rewrite (bind_ok _ _ _ _ _ (set_copy_run _ _ _ HI)).
  set (nl := fresh (dom (sets σ))).
  assert (Hne : l ≠ nl) by by eapply fresh_loc_ne.
  set (S1 := <[nl := I]> (sets σ)).
  set (reg := ifc_objects_of ifc_file) in *.
  set (header := [Line "strict graph G {";
                  Line "graph [overlap=false,splines=true,rankdir=LR];"]).
  set (τ0 := State S1 (header ++ node_stmts I (self <$> by_type ifc_file "IfcObject"))).
  assert (HS1 : S1 !! l = Some I) by (by unfold S1; rewrite lookup_insert_ne).
  assert (E0 : write_objects ifc_file l (State S1 header) = (Ok reg, τ0))
    by (by apply (write_objects_run ifc_file l I)).
  change (((let! ifc_objects := write_objects ifc_file l in
            write_relationships ifc_file ifc_objects l nl >>
            write_clusters ifc_file ifc_objects l >>
            dot_write (Line "}") >> ret nl) (State S1 header)).1 = Ok nl).
  rewrite (bind_ok _ _ _ _ _ E0).
  assert (Hrest : triple (edges_inv reg S1 nl I (dot τ0))
            (write_relationships ifc_file reg l nl >>
             write_clusters ifc_file reg l >> dot_write (Line "}") >> ret nl)
            (λ r _, r = nl) (λ _, False)).
  { eapply triple_bind.
    { apply triple_for_each_any. intros r Hr.
      by apply write_relationship_returns, Hrels. }
    intros [].
    apply (triple_weaken _ (λ σ', sets σ' !! l = Some I) _ _ (λ r _, r = nl) _ (λ _, False));
      [|by intros σ' (Hframe & _); rewrite Hframe|done|done].
    eapply triple_bind.
    { apply triple_for_each_any. intros e (i & -> & Hi)%list_elem_of_fmap.
      destruct (Hsites i Hi) as [Hrank Hreg].
      by apply (cluster_returns reg l I rank). }
    intros [].
    eapply (triple_bind _ _ _ (λ _ _, True)); [by apply triple_dot_write_any|].
    intros []. by apply triple_ret. }
  assert (H0 : edges_inv reg S1 nl I (dot τ0) τ0).
  { split; [done|]. split; [|apply appends_refl].
    exists I. unfold τ0, S1. simpl. rewrite lookup_insert_eq.
    split; [done|]. split; [done | apply union_subseteq_l]. }
  specialize (Hrest τ0 H0).
  by destruct ((write_relationships ifc_file reg l nl >> _) τ0) as [[r|?] ?]; subst.
Qed.

(** ** The block structure of the output *)

Lemma level_snoc out s : level (out ++ [s]) = bracket (level out) s.
Proof. unfold level. by rewrite foldl_app. Qed.

Lemma level_flat out ext :
  Forall (λ s, ∀ lvl, bracket lvl s = lvl) ext → level (out ++ ext) = level out.
Proof.
  intros Hext. unfold level. rewrite foldl_app.
  generalize (foldl bracket (Some 0) out).
  induction Hext as [|s ext Hs _ IH]; intros lvl; [done|]. simpl. by rewrite Hs.
Qed.

Lemma triple_pure_any {A} (m : M A) (P E : state → Prop) :
  pure m → (∀ σ, P σ → E σ) → triple P m (λ _, P) E.
Proof.
  intros Hp HE σ HP. specialize (Hp σ).
  destruct (m σ) as [[a|e] σ']; simpl in *; subst; auto.
Qed.

Lemma cluster_keeps_level (ifc_objects : gmap Z string) l depth e k :
  triple (λ σ, level (dot σ) = Some k) (cluster depth e ifc_objects l)
         (λ _ σ, level (dot σ) = Some k) (λ _, True).
Proof.
  revert e k. induction depth as [|depth IH]; intros e k; simpl.
  { by apply triple_raise. }
  destruct (is_a e "IfcVirtualElement"); [by apply triple_ret|].
  eapply triple_bind.
  { by apply triple_pure_any; [apply pure_not_of_interest|]. }
  intros []; [by apply triple_ret|].
  destruct (get_decomposition e) as [|c cs]; [by apply triple_ret|].
  eapply (triple_bind _ _ _ (λ _ σ, level (dot σ) = Some (S k))).
  { apply triple_dot_write_any. intros σ Hσ. simpl. by rewrite level_snoc, Hσ. }
  intros [].
  eapply (triple_bind _ _ _ (λ _ σ, level (dot σ) = Some (S k))).
  { apply triple_dot_write_any. intros σ Hσ. simpl. by rewrite level_snoc, Hσ. }
  intros [].
  eapply (triple_bind _ _ _ (λ _ σ, level (dot σ) = Some (S k))).
  { by apply triple_pure_any; [apply pure_dict_get|]. }
  intros lbl.
  eapply (triple_bind _ _ _ (λ _ σ, level (dot σ) = Some (S k))).
  { apply triple_dot_write_any. intros σ Hσ. simpl. by rewrite level_snoc, Hσ. }
  intros [].
  eapply (triple_bind _ _ _ (λ _ σ, level (dot σ) = Some (S k))).
  2:{ intros []. apply triple_dot_write_any. intros σ Hσ. simpl.
      by rewrite level_snoc, Hσ. }
  apply triple_for_each_any. intros child _.
  destruct (is_a child "IfcVirtualElement"); [by apply triple_ret|].
  eapply triple_bind.
  { by apply triple_pure_any; [apply pure_not_of_interest|]. }
  intros []; [by apply triple_ret|].
  eapply (triple_bind _ _ _ (λ _ σ, level (dot σ) = Some (S k))).
  { by apply triple_pure_any; [apply pure_dict_get|]. }
  intros lbl'.
  eapply (triple_bind _ _ _ (λ _ σ, level (dot σ) = Some (S k))).
  { apply triple_dot_write_any. intros σ Hσ. simpl. by rewrite level_snoc, Hσ. }
  intros []. apply IH.
Qed.

(** X12. The output of a returning call is laid out in this order: the two
    header lines, the node statements of the objects of interest in file
    order, edge statements between registry entries, cluster statements, and
    the closing line.  Its blocks are balanced: every subgraph block opened
    by the cluster emitter is closed again, the closing line closes the
    graph, and no block is closed that was not opened. *)
Theorem returning_call_layout ifc_file l I σ nl :
  sets σ !! l = Some I →
  (write_dot ifc_file l σ).1 = Ok nl →
  let out := dot (write_dot ifc_file l σ).2 in
  let ifc_objects := ifc_objects_of ifc_file in
  (∃ edges clusters,
      out = [Line "strict graph G {";
             Line "graph [overlap=false,splines=true,rankdir=LR];"]
            ++ node_stmts I (self <$> by_type ifc_file "IfcObject")
            ++ edges ++ clusters ++ [Line "}"]
      ∧ Forall (edge_ok ifc_objects) edges
      ∧ Forall (cluster_ok ifc_file ifc_objects) clusters)
  ∧ level out = Some 0.
Proof.
  intros HI. unfold write_dot.
  rewrite (bind_ok _ _ _ _ _ (set_copy_run _ _ _ HI)).
  set (n0 := fresh (dom (sets σ))).
  assert (Hne : l ≠ n0) by by eapply fresh_loc_ne.
  set (S1 := <[n0 := I]> (sets σ)).
  set (reg := ifc_objects_of ifc_file).
  set (header := [Line "strict graph G {";
                  Line "graph [overlap=false,splines=true,rankdir=LR];"]).
  set (nodes := node_stmts I (self <$> by_type ifc_file "IfcObject")).
  set (τ0 := State S1 (header ++ nodes)).
  assert (HS1 : S1 !! l = Some I) by (by unfold S1; rewrite lookup_insert_ne).
  assert (E0 : write_objects ifc_file l (State S1 header) = (Ok reg, τ0))
    by (by apply (write_objects_run ifc_file l I)).
  set (rest := let! ifc_objects := write_objects ifc_file l in
               write_relationships ifc_file ifc_objects l n0 >>
               write_clusters ifc_file ifc_objects l >>
               dot_write (Line "}") >> ret n0).
  change ((rest (State S1 header)).1 = Ok nl →
          let out := dot (rest (State S1 header)).2 in
          (∃ edges clusters,
              out = header ++ nodes ++ edges ++ clusters ++ [Line "}"]
              ∧ Forall (edge_ok reg) edges
              ∧ Forall (cluster_ok ifc_file reg) clusters)
          ∧ level out = Some 0).
  unfold rest. rewrite (bind_ok _ _ _ _ _ E0).
  assert (H0 : edges_inv reg S1 n0 I (dot τ0) τ0).
  { split; [done|]. split; [|apply appends_refl].
    exists I. unfold τ0, S1. simpl. rewrite lookup_insert_eq.
    split; [done|]. split; [done | apply union_subseteq_l]. }
  pose proof (write_relationships_preserves ifc_file reg S1 l n0 I (dot τ0) HS1 Hne τ0 H0)
    as H1.
  destruct (write_relationships ifc_file reg l n0 τ0) as [[[]|e] τ1] eqn:E1;
    [|rewrite (bind_raise _ _ _ _ _ E1); simpl; intros [=]].
  rewrite (bind_ok _ _ _ _ _ E1).
  destruct H1 as (_ & _ & edges & Hedges & Hedges_ok).
  assert (Hflat : Forall (λ s, ∀ lvl, bracket lvl s = lvl) (nodes ++ edges)).
  { apply Forall_app. split.
    - eapply Forall_impl; [apply node_stmts_nodes|].
      intros s Hs lvl. destruct s; try done. by destruct lvl.
    - eapply Forall_impl; [exact Hedges_ok|].
      intros s Hs lvl. destruct s; try done. by destruct lvl. }
  assert (Hlevel1 : level (dot τ1) = Some 1).
  { rewrite Hedges. unfold τ0. cbn [dot].
    rewrite <- (assoc_L (++)). by rewrite level_flat. }
  pose proof (write_clusters_preserves ifc_file reg (sets τ1) (dot τ1) l τ1
                (conj eq_refl (appends_refl _ _))) as H2.
  assert (H3 : triple (λ σ', level (dot σ') = Some 1) (write_clusters ifc_file reg l)
                 (λ _ σ', level (dot σ') = Some 1) (λ _, True)).
  { apply triple_for_each_any. intros e _. apply cluster_keeps_level. }
  specialize (H3 τ1 Hlevel1).
  destruct (write_clusters ifc_file reg l τ1) as [[[]|e] τ2] eqn:E2;
    [|rewrite (bind_raise _ _ _ _ _ E2); simpl; intros [=]].
  rewrite (bind_ok _ _ _ _ _ E2). intros _. rewrite bind_dot_write. unfold ret.
  cbn [snd dot]. destruct H2 as (_ & clusters & Hclusters & Hclusters_ok). split.
  - exists edges, clusters. split; [|done].
    rewrite Hclusters, Hedges. unfold τ0. cbn [dot].
    by rewrite <- !(assoc_L (++)).
  - by rewrite level_snoc, H3.
Qed.

(** ** What a call draws *)

(** X13. Every object of interest is drawn: whether the call returns or
    raises later, the output holds the node statement, with its label and
    its colour, of every [IfcObject] of the file that is not virtual and
    whose id is in the interest set, or of every such object when the
    interest set is empty. *)
Theorem objects_of_interest_drawn ifc_file l I σ i :
  sets σ !! l = Some I →
  i ∈ ifc_file → is_a (self i) "IfcObject" = true →
  is_a (self i) "IfcVirtualElement" = false →
  I = ∅ ∨ id (self i) ∈ I →
  NodeStmt (id (self i)) (label_of (self i)) (fill_of (self i))
    ∈ dot (write_dot ifc_file l σ).2.
Proof.
  intros HI Hi Hobj Hv Hint.
  destruct (write_dot_outcome ifc_file l I σ HI) as (_ & _ & _ & ext & -> & _).
  apply elem_of_app. left. apply elem_of_app. right.
  apply node_stmts_elem. exists (self i). split; [|done].
  apply list_elem_of_fmap. exists i. split; [done|].
  apply list_elem_of_filter. split; [by apply Is_true_true | done].
Qed.

Lemma interest_inv_write l nl I D s :
  (∀ n, n ∈ stmt_ids s → n ∈ I) →
  preserves (interest_inv l nl I D) (dot_write s).
Proof.
  intros Hs. apply triple_dot_write. intros σ (Hl & Hnl & Happ).
  split; [done|]. split; [done|]. by apply appends_write.
Qed.

Lemma write_candidate_names_interest (ifc_objects : gmap Z string) l nl I D a b w st :
  l ≠ nl → I ≠ ∅ →
  preserves (interest_inv l nl I D) (write_candidate ifc_objects l nl a b w st).
Proof.
  intros Hne HI σ (Hl & [NI Hnl] & Happ). unfold write_candidate.
  rewrite (bind_ok _ _ _ _ _ (set_bool_run _ _ _ Hl)).
  rewrite bool_decide_false by done. cbn [negb].
  rewrite (bind_ok _ _ _ _ _ (set_contains_run _ _ _ _ Hl)).
  rewrite (bind_ok _ _ _ _ _ (set_contains_run _ _ _ _ Hl)).
  assert (HP : interest_inv l nl I D σ) by (split; [done|]; split; [by exists NI | done]).
  assert (Hadd : ∀ x, interest_inv l nl I D
                        (State (<[nl := NI ∪ {[x]}]> (sets σ)) (dot σ))).
  { intros x. split; [by simpl; rewrite lookup_insert_ne|].
    split; [|done]. simpl. rewrite lookup_insert_eq. by eexists. }
  destruct (bool_decide (a ∈ I)) eqn:Ea, (bool_decide (b ∈ I)) eqn:Eb; cbn.
  - rewrite bind_dict_get. destruct (ifc_objects !! a) as [la|]; [|done].
    rewrite bind_dict_get. destruct (ifc_objects !! b) as [lb|]; [|done].
    apply bool_decide_eq_true in Ea, Eb.
    split; [done|]. split; [by exists NI|]. apply appends_write; [|done].
    intros n Hn. simpl in Hn.
    repeat (apply elem_of_cons in Hn as [-> | Hn]); try done.
    by apply elem_of_nil in Hn.
  - rewrite (set_add_run _ _ _ _ Hnl). apply Hadd.
  - rewrite (set_add_run _ _ _ _ Hnl). apply Hadd.
  - done.
Qed.

Lemma cluster_names_interest (ifc_objects : gmap Z string) l nl I D depth e :
  I ≠ ∅ →
  preserves (interest_inv l nl I D) (cluster depth e ifc_objects l).
Proof.
  intros HI. revert e. induction depth as [|depth IH]; intros e; simpl.
  { by apply triple_raise. }
  destruct (is_a e "IfcVirtualElement"); [by apply triple_ret|].
  assert (Hskip : ∀ x (k : M unit),
            (x ∈ I → preserves (interest_inv l nl I D) k) →
            preserves (interest_inv l nl I D)
              (let! skip := not_of_interest l x in if skip then ret tt else k)).
  { intros x k Hk σ HP. pose proof HP as (Hl & _).
    rewrite (bind_ok _ _ _ _ _ (not_of_interest_run _ _ _ _ Hl)).
    rewrite bool_decide_false by done. cbn [negb andb].
    destruct (bool_decide (x ∈ I)) eqn:Ex; cbn [negb]; [|done].
    apply bool_decide_eq_true in Ex. by apply Hk. }
  apply Hskip. intros He.
  destruct (get_decomposition e) as [|c cs]; [by apply triple_ret|].
  assert (Hid : ∀ x, x ∈ I → ∀ n, n ∈ [x] → n ∈ I)
    by (by intros x Hx n ->%list_elem_of_singleton).
  eapply triple_bind; [by apply interest_inv_write, Hid|]. intros [].
  eapply triple_bind.
  { apply interest_inv_write. intros n Hn. by apply elem_of_nil in Hn. }
  intros [].
  eapply triple_bind; [apply preserves_pure, pure_dict_get|]. intros lbl.
  eapply triple_bind; [by apply interest_inv_write, Hid|]. intros [].
  eapply (triple_bind _ _ _ (λ _, interest_inv l nl I D)).
  2:{ intros []. apply interest_inv_write. intros n Hn. by apply elem_of_nil in Hn. }
  apply triple_for_each. intros child _.
  destruct (is_a child "IfcVirtualElement"); [by apply triple_ret|].
  apply Hskip. intros Hchild.
  eapply triple_bind; [apply preserves_pure, pure_dict_get|]. intros lbl'.
  eapply triple_bind; [by apply interest_inv_write, Hid|]. intros []. apply IH.
Qed.

(** X14. A call with a non-empty interest set names only ids of interest:
    whether it returns or raises, every id that occurs in a node, edge,
    subgraph or member statement of its output is in the interest set. *)
Theorem filtered_output_names_interest ifc_file l I σ s n :
  sets σ !! l = Some I → I ≠ ∅ →
  s ∈ dot (write_dot ifc_file l σ).2 → n ∈ stmt_ids s → n ∈ I.
Proof.
  intros HI Hne. unfold write_dot.
  rewrite (bind_ok _ _ _ _ _ (set_copy_run _ _ _ HI)).
  set (n0 := fresh (dom (sets σ))).
  assert (Hn0 : l ≠ n0) by by eapply fresh_loc_ne.
  set (S1 := <[n0 := I]> (sets σ)).
  set (reg := ifc_objects_of ifc_file).
  set (header := [Line "strict graph G {";
                  Line "graph [overlap=false,splines=true,rankdir=LR];"]).
  set (nodes := node_stmts I (self <$> by_type ifc_file "IfcObject")).
  set (τ0 := State S1 (header ++ nodes)).
  assert (HS1 : S1 !! l = Some I) by (by unfold S1; rewrite lookup_insert_ne).
  assert (E0 : write_objects ifc_file l (State S1 header) = (Ok reg, τ0))
    by (by apply (write_objects_run ifc_file l I)).
  set (rest := let! ifc_objects := write_objects ifc_file l in
               write_relationships ifc_file ifc_objects l n0 >>
               write_clusters ifc_file ifc_objects l >>
               dot_write (Line "}") >> ret n0).
  change (s ∈ dot (rest (State S1 header)).2 → n ∈ stmt_ids s → n ∈ I).
  unfold rest. rewrite (bind_ok _ _ _ _ _ E0).
  assert (Hrest : preserves (interest_inv l n0 I [])
            (write_relationships ifc_file reg l n0 >>
             write_clusters ifc_file reg l >> dot_write (Line "}") >> ret n0)).
  { eapply triple_bind.
    { apply triple_for_each. intros r _. unfold write_relationship.
      eapply triple_bind; [apply preserves_pure, pure_decompose|]. intros sh.
      eapply triple_bind; [apply preserves_pure, pure_iter|]. intros vs.
      apply triple_for_each. intros v _. unfold write_edge.
      eapply triple_bind; [apply preserves_pure, pure_registered_ends|].
      intros [[a b]|]; [|by apply triple_ret].
      by apply write_candidate_names_interest. }
    intros []. eapply triple_bind.
    { apply triple_for_each. intros e _. by apply cluster_names_interest. }
    intros []. eapply triple_bind.
    { apply interest_inv_write. intros k Hk. by apply elem_of_nil in Hk. }
    intros []. by apply triple_ret. }
  assert (H0 : interest_inv l n0 I [] τ0).
  { split; [done|]. split; [unfold τ0, S1; simpl; rewrite lookup_insert_eq; by eexists|].
    exists (header ++ nodes). split; [done|]. apply Forall_app. split.
    - unfold header. repeat constructor; intros k Hk; by apply elem_of_nil in Hk.
    - apply Forall_forall.
      intros t (o & _ & _ & [HI0 | Ho] & ->)%node_stmts_elem; [done|].
      by intros k ->%list_elem_of_singleton. }
  specialize (Hrest τ0 H0).
  destruct ((write_relationships ifc_file reg l n0 >> _) τ0) as [[?|?] τ];
    destruct Hrest as (_ & _ & ext & Hdot & Hext); cbn [snd];
    rewrite Hdot; cbn [app]; rewrite Forall_forall in Hext;
    intros Hs Hn; by apply (Hext s).
Qed.

(** ** Two filtered calls, in every outcome *)

Lemma narrows_ret (reg : gmap Z string) l1 nl1 l2 nl2 J I :
  narrows reg l1 nl1 l2 nl2 J I (ret tt) (ret tt).
Proof.
  intros σ1 σ2 H1 H1n H2 H2n. exists []. simpl.
  rewrite filter_nil, !app_nil_r. by repeat split.
Qed.

Lemma narrows_seq (reg : gmap Z string) l1 nl1 l2 nl2 J I m1 m2 k1 k2 :
  narrows reg l1 nl1 l2 nl2 J I m1 m2 →
  narrows reg l1 nl1 l2 nl2 J I k1 k2 →
  narrows reg l1 nl1 l2 nl2 J I (m1 >> k1) (m2 >> k2).
Proof.
  intros Hm Hk σ1 σ2 H1 H1n H2 H2n.
  destruct (Hm σ1 σ2 H1 H1n H2 H2n)
    as (ext & Hext & Hres & Hd1 & Hd2 & H1' & H1n' & H2' & H2n').
  unfold bind.
  destruct (m1 σ1) as [[[]|e1] σ1'], (m2 σ2) as [[[]|e2] σ2']; simpl in *; try done.
  - destruct (Hk σ1' σ2' H1' H1n' H2' H2n')
      as (ext' & Hext' & Hres' & Hd1' & Hd2' & Hrest).
    exists (ext ++ ext'). split; [by apply Forall_app|]. split; [done|].
    split; [by rewrite Hd1', Hd1, (assoc_L (++))|].
    split; [by rewrite Hd2', Hd2, filter_app, (assoc_L (++))|]. done.
  - by exists ext.
Qed.

Lemma narrows_for_each {A} (reg : gmap Z string) l1 nl1 l2 nl2 J I
    (xs : list A) (body1 body2 : A → M unit) :
  (∀ x, narrows reg l1 nl1 l2 nl2 J I (body1 x) (body2 x)) →
  narrows reg l1 nl1 l2 nl2 J I (for_each xs body1) (for_each xs body2).
Proof.
  intros Hbody. induction xs as [|x xs IH]; simpl.
  - apply narrows_ret.
  - by apply narrows_seq.
Qed.

Lemma narrows_bind_stateless {A} (reg : gmap Z string) l1 nl1 l2 nl2 J I
    (m : M A) (k1 k2 : A → M unit) :
  stateless m →
  (∀ a, (∀ σ, m σ = (Ok a, σ)) → narrows reg l1 nl1 l2 nl2 J I (k1 a) (k2 a)) →
  narrows reg l1 nl1 l2 nl2 J I (bind m k1) (bind m k2).
Proof.
  intros [r Hr] Hk σ1 σ2 H1 H1n H2 H2n. unfold bind. rewrite !Hr.
  destruct r as [a|e]; [by apply (Hk a Hr)|].
  exists []. simpl. rewrite filter_nil, !app_nil_r. by repeat split.
Qed.

Lemma subseteq_non_empty (I J : gset Z) : I ≠ ∅ → I ⊆ J → J ≠ ∅.
Proof.
  intros HI Hsub. destruct (set_choose_L I HI) as [y Hy].
  apply (non_empty_inhabited_L y). by apply Hsub.
Qed.

Lemma narrows_write_candidate (reg : gmap Z string) l1 nl1 l2 nl2 J I a b w st :
  I ≠ ∅ → I ⊆ J → l1 ≠ nl1 → l2 ≠ nl2 →
  a ∈ dom reg → b ∈ dom reg →
  narrows reg l1 nl1 l2 nl2 J I
    (write_candidate reg l1 nl1 a b w st) (write_candidate reg l2 nl2 a b w st).
Proof.
  intros HI Hsub Hn1 Hn2 [la Hla]%elem_of_dom [lb Hlb]%elem_of_dom
    σ1 σ2 H1 [N1 H1n] H2 [N2 H2n].
  pose proof (subseteq_non_empty I J HI Hsub) as HJ.
  rewrite (write_candidate_run _ _ _ _ _ _ _ _ _ _ _ _ Hla Hlb H1 H1n).
  rewrite (write_candidate_run _ _ _ _ _ _ _ _ _ _ _ _ Hla Hlb H2 H2n).
  rewrite (bool_decide_false (J = ∅)), (bool_decide_false (I = ∅)) by done.
  assert (Hedge : edge_ok reg (EdgeStmt a b la lb w st)) by done.
  exists (if bool_decide (a ∈ J) && bool_decide (b ∈ J)
          then [EdgeStmt a b la lb w st] else []).
  destruct (bool_decide (a ∈ J)) eqn:EaJ, (bool_decide (b ∈ J)) eqn:EbJ,
           (bool_decide (a ∈ I)) eqn:EaI, (bool_decide (b ∈ I)) eqn:EbI;
    try (apply bool_decide_eq_true in EaI; apply bool_decide_eq_false in EaJ;
         destruct EaJ; by apply Hsub);
    try (apply bool_decide_eq_true in EbI; apply bool_decide_eq_false in EbJ;
         destruct EbJ; by apply Hsub).
  all: cbn [andb fst snd sets dot];
    (split; [first [done | by apply List.Forall_cons]|]);
    rewrite ?filter_cons, ?filter_nil; unfold in_interest; cbn [stmt_ids forallb];
    rewrite ?EaI, ?EbI; cbn [andb].
  all: simpl; rewrite ?app_nil_r, ?lookup_insert_eq, ?lookup_insert_ne by done;
    repeat split; eauto.
Qed.

Lemma narrows_write_edge (reg : gmap Z string) l1 nl1 l2 nl2 J I s v :
  I ≠ ∅ → I ⊆ J → l1 ≠ nl1 → l2 ≠ nl2 →
  narrows reg l1 nl1 l2 nl2 J I
    (write_edge reg l1 nl1 s v) (write_edge reg l2 nl2 s v).
Proof.
  intros HI Hsub Hn1 Hn2.
  apply narrows_bind_stateless; [apply stateless_registered_ends|].
  intros [[a b]|] Hr; [|apply narrows_ret].
  assert (Hab : a ∈ dom reg ∧ b ∈ dom reg).
  { apply (registered_ends_some reg s v (State ∅ [])). by rewrite Hr. }
  destruct Hab. by apply narrows_write_candidate.
Qed.

Lemma narrows_write_relationships ifc_file (reg : gmap Z string) l1 nl1 l2 nl2 J I :
  I ≠ ∅ → I ⊆ J → l1 ≠ nl1 → l2 ≠ nl2 →
  narrows reg l1 nl1 l2 nl2 J I
    (write_relationships ifc_file reg l1 nl1) (write_relationships ifc_file reg l2 nl2).
Proof.
  intros HI Hsub Hn1 Hn2. apply narrows_for_each. intros r.
  apply narrows_bind_stateless; [apply stateless_decompose|]. intros s _.
  apply narrows_bind_stateless; [apply stateless_iter|]. intros vs _.
  apply narrows_for_each. intros v. by apply narrows_write_edge.
Qed.

Lemma node_stmts_narrow I J objs :
  I ≠ ∅ → I ⊆ J → node_stmts I objs = filter (in_interest I) (node_stmts J objs).
Proof.
  intros HI Hsub. pose proof (subseteq_non_empty I J HI Hsub) as HJ.
  induction objs as [|o objs IH]; [done|].
  change (o :: objs) with ([o] ++ objs). rewrite !node_stmts_app, filter_app, <- IH.
  f_equal. unfold node_stmts. simpl.
  destruct (is_a o "IfcVirtualElement"); [done|].
  rewrite (bool_decide_false (I = ∅)), (bool_decide_false (J = ∅)) by done. simpl.
  destruct (bool_decide (id o ∈ J)) eqn:EJ, (bool_decide (id o ∈ I)) eqn:EI; simpl;
    rewrite ?filter_cons, ?filter_nil; unfold in_interest; simpl; rewrite ?EI; try done.
  apply bool_decide_eq_true in EI. apply bool_decide_eq_false in EJ.
  destruct EJ. by apply Hsub.
Qed.

Lemma write_clusters_tail ifc_file (reg : gmap Z string) l (nl : loc) τ :
  ∃ tl, dot ((write_clusters ifc_file reg l >> dot_write (Line "}") >> ret nl) τ).2
        = dot τ ++ tl
        ∧ Forall (λ s, node_or_edge s = false) tl.
Proof.
  pose proof (write_clusters_preserves ifc_file reg (sets τ) (dot τ) l τ
                (conj eq_refl (appends_refl _ _))) as H.
  assert (Hno : ∀ cl, Forall (cluster_ok ifc_file reg) cl →
                      Forall (λ s, node_or_edge s = false) cl).
  { intros cl Hcl. eapply Forall_impl; [exact Hcl|]. intros s Hs.
    destruct (cluster_ok_other _ _ _ Hs) as [He Hn].
    unfold node_or_edge. by rewrite He, Hn. }
  unfold bind. destruct (write_clusters ifc_file reg l τ) as [[[]|e] τ'];
    destruct H as (_ & cl & Hcl & Hok); simpl.
  - exists (cl ++ [Line "}"]). rewrite Hcl, (assoc_L (++)). split; [done|].
    apply Forall_app. split; [by apply Hno | by repeat constructor].
  - exists cl. split; [done | by apply Hno].
Qed.

(** X4. Growing the interest set only adds to the picture: for non-empty
    [I ⊆ J], the node and edge statements written for [I] are those written
    for [J] all of whose ids are in [I], whether the calls return or
    raise. *)
Theorem larger_interest_extends_output ifc_file l I σ l' J σ' :
  sets σ !! l = Some I → I ≠ ∅ →
  sets σ' !! l' = Some J → I ⊆ J →
  filter (λ s, node_or_edge s) (dot (write_dot ifc_file l σ).2)
  = filter (λ s, node_or_edge s && in_interest I s) (dot (write_dot ifc_file l' σ').2).
Proof.
  intros HI Hne HJ Hsub. unfold write_dot.
  rewrite (bind_ok _ _ _ _ _ (set_copy_run _ _ _ HI)).
  rewrite (bind_ok _ _ _ _ _ (set_copy_run _ _ _ HJ)).
  set (nl := fresh (dom (sets σ))). set (nl' := fresh (dom (sets σ'))).
  assert (Hnl : l ≠ nl) by by eapply fresh_loc_ne.
  assert (Hnl' : l' ≠ nl') by by eapply fresh_loc_ne.
  set (header := [Line "strict graph G {";
                  Line "graph [overlap=false,splines=true,rankdir=LR];"]).
  set (objs := self <$> by_type ifc_file "IfcObject").
  set (reg := ifc_objects_of ifc_file).
  set (rest l nl := let! ifc_objects := write_objects ifc_file l in
                   write_relationships ifc_file ifc_objects l nl >>
                   write_clusters ifc_file ifc_objects l >>
                   dot_write (Line "}") >> ret nl).
  change (filter (λ s, node_or_edge s)
            (dot (rest l nl (State (<[nl := I]> (sets σ)) header)).2)
          = filter (λ s, node_or_edge s && in_interest I s)
              (dot (rest l' nl' (State (<[nl' := J]> (sets σ')) header)).2)).
  unfold rest.
  set (τ0 := State (<[nl := I]> (sets σ)) (header ++ node_stmts I objs)).
  set (τ0' := State (<[nl' := J]> (sets σ')) (header ++ node_stmts J objs)).
  assert (E0 : write_objects ifc_file l (State (<[nl := I]> (sets σ)) header)
               = (Ok reg, τ0)).
  { apply (write_objects_run ifc_file l I). by simpl; rewrite lookup_insert_ne. }
  assert (E0' : write_objects ifc_file l' (State (<[nl' := J]> (sets σ')) header)
                = (Ok reg, τ0')).
  { apply (write_objects_run ifc_file l' J). by simpl; rewrite lookup_insert_ne. }
  rewrite (bind_ok _ _ _ _ _ E0), (bind_ok _ _ _ _ _ E0').
  destruct (narrows_write_relationships ifc_file reg l' nl' l nl J I
              Hne Hsub Hnl' Hnl τ0' τ0)
    as (ext & Hext & Hres & HdJ & HdI & _).
  { by unfold τ0'; simpl; rewrite lookup_insert_ne. }
  { unfold τ0'; simpl; rewrite lookup_insert_eq; by eexists. }
  { by unfold τ0; simpl; rewrite lookup_insert_ne. }
  { unfold τ0; simpl; rewrite lookup_insert_eq; by eexists. }
  assert (Hfinal : ∀ tl tl',
            Forall (λ s, node_or_edge s = false) tl →
            Forall (λ s, node_or_edge s = false) tl' →
            filter (λ s, node_or_edge s)
              ((dot τ0 ++ filter (in_interest I) ext) ++ tl)
            = filter (λ s, node_or_edge s && in_interest I s)
                ((dot τ0' ++ ext) ++ tl')).
  { intros tl tl' Htl Htl'. unfold τ0, τ0'. cbn [dot]. rewrite !filter_app.
    rewrite (filter_none_bool node_or_edge header) by (by repeat constructor).
    rewrite (filter_none_bool (λ s, node_or_edge s && in_interest I s) header)
      by (by repeat constructor).
    rewrite (filter_none_bool node_or_edge tl) by done.
    rewrite (filter_none_bool (λ s, node_or_edge s && in_interest I s) tl').
    2:{ eapply Forall_impl; [exact Htl'|]. by intros s ->. }
    rewrite !app_nil_r. cbn [app]. f_equal.
    - rewrite (node_stmts_narrow I J objs Hne Hsub).
      rewrite list_filter_filter. apply filter_agree.
      eapply Forall_impl; [apply node_stmts_nodes|]. intros s Hs.
      unfold node_or_edge. rewrite Hs. simpl. tauto.
    - rewrite list_filter_filter. apply filter_agree.
      eapply Forall_impl; [exact Hext|]. intros s Hs.
      destruct (edge_ok_edge _ _ Hs) as [He Hn].
      unfold node_or_edge. rewrite He, Hn. simpl. tauto. }
  destruct (write_relationships ifc_file reg l' nl' τ0') as [[[]|eJ] τ1'] eqn:EJ,
           (write_relationships ifc_file reg l nl τ0) as [[[]|eI] τ1] eqn:EI;
    simpl in Hres, HdJ, HdI; try done.
  - rewrite (bind_ok _ _ _ _ _ EI), (bind_ok _ _ _ _ _ EJ).
    destruct (write_clusters_tail ifc_file reg l nl τ1) as (tl & -> & Htl).
    destruct (write_clusters_tail ifc_file reg l' nl' τ1') as (tl' & -> & Htl').
    rewrite HdJ, HdI. by apply Hfinal.
  - rewrite (bind_raise _ _ _ _ _ EI), (bind_raise _ _ _ _ _ EJ). cbn [snd].
    rewrite HdJ, HdI.
    pose proof (Hfinal [] [] (List.Forall_nil _) (List.Forall_nil _)) as Hf.
    by rewrite !app_nil_r in Hf.
Qed.

(** ** An id added to the next interest stays there *)

Lemma preserves_and {A} (P Q : state → Prop) (m : M A) :
  preserves P m → preserves Q m → preserves (λ σ, P σ ∧ Q σ) m.
Proof.
  intros HP HQ σ [Hp Hq]. specialize (HP σ Hp). specialize (HQ σ Hq).
  by destruct (m σ) as [[?|?] ?].
Qed.

Lemma set_add_keeps_id nl x l y : preserves (next_interest_has nl x) (set_add l y).
Proof.
  intros σ (NI & HNI & Hx). unfold set_add.
  destruct (sets σ !! l) as [X|] eqn:E; [|by exists NI].
  destruct (decide (l = nl)) as [->|Hne].
  - exists (X ∪ {[y]}). simpl. rewrite lookup_insert_eq. split; [done|].
    simplify_eq. apply elem_of_union. by left.
  - exists NI. simpl. by rewrite lookup_insert_ne.
Qed.

Lemma write_candidate_keeps_id (reg : gmap Z string) l nl a b w st nl0 x :
  preserves (next_interest_has nl0 x) (write_candidate reg l nl a b w st).
Proof.
  unfold write_candidate. cbv zeta.
  assert (Hemit : preserves (next_interest_has nl0 x)
            (let! label_a := dict_get reg a in
             let! label_b := dict_get reg b in
             dot_write (EdgeStmt a b label_a label_b w st))).
  { eapply triple_bind; [apply preserves_pure, pure_dict_get|]. intros la.
    eapply triple_bind; [apply preserves_pure, pure_dict_get|]. intros lb.
    by apply triple_dot_write. }
  eapply triple_bind; [apply preserves_pure, pure_set_bool|]. intros []; [|done].
  eapply triple_bind; [apply preserves_pure, pure_set_contains|]. intros a_in.
  eapply triple_bind; [apply preserves_pure, pure_set_contains|]. intros b_in.
  destruct a_in, b_in; simpl;
    first [ exact Hemit | apply set_add_keeps_id | by apply triple_ret ].
Qed.

Lemma write_relationship_keeps_id (reg : gmap Z string) l nl ifc_rel nl0 x :
  preserves (next_interest_has nl0 x) (write_relationship reg l nl ifc_rel).
Proof.
  unfold write_relationship.
  eapply triple_bind; [apply preserves_pure, pure_decompose|]. intros s.
  eapply triple_bind; [apply preserves_pure, pure_iter|]. intros vs.
  apply triple_for_each. intros v _. unfold write_edge.
  eapply triple_bind; [apply preserves_pure, pure_registered_ends|].
  intros [[a b]|]; [apply write_candidate_keeps_id | by apply triple_ret].
Qed.

Lemma triple_for_each_reaches {A} (xs : list A) (body : A → M unit)
    (P H : state → Prop) x :
  x ∈ xs →
  (∀ y, preserves P (body y)) → (∀ y, preserves H (body y)) →
  triple P (body x) (λ _ σ, P σ ∧ H σ) P →
  triple P (for_each xs body) (λ _ σ, P σ ∧ H σ) P.
Proof.
  intros Hx HP HH Hbody. induction xs as [|y xs IH]; [by apply elem_of_nil in Hx|].
  simpl. apply elem_of_cons in Hx as [-> | Hx].
  - eapply triple_bind; [exact Hbody|]. intros [].
    eapply triple_weaken;
      [apply (triple_for_each xs body (λ σ, P σ ∧ H σ)) | done | done | by intros σ [? ?]].
    intros z _. by apply preserves_and.
  - eapply triple_bind; [apply HP|]. intros []. by apply IH.
Qed.

Lemma stateless_run {A} (m : M A) σ r : stateless m → (m σ).1 = r → ∀ σ', m σ' = (r, σ').
Proof. intros [r' Hr] Hm σ'. rewrite Hr in Hm. simpl in Hm. by subst. Qed.

Lemma write_edge_adds_end (reg : gmap Z string) S0 l nl I D s ea eb x :
  S0 !! l = Some I → l ≠ nl →
  relating_object s = PyInstance ea →
  id ea ∈ dom reg → id eb ∈ dom reg →
  (x = id ea ∧ id eb ∈ I) ∨ (x = id eb ∧ id ea ∈ I) → x ∉ I →
  triple (edges_inv reg S0 nl I D) (write_edge reg l nl s (PyInstance eb))
         (λ _ σ, edges_inv reg S0 nl I D σ ∧ next_interest_has nl x σ)
         (edges_inv reg S0 nl I D).
Proof.
  intros Hl Hne Hs Ha Hb Hends Hx σ Hinv.
  pose proof (write_edge_preserves reg S0 l nl I D s (PyInstance eb) Hl Hne σ Hinv)
    as Hpres.
  destruct Hinv as (Hframe & (NI & HNI & _) & _).
  assert (HI : sets σ !! l = Some I) by (by rewrite Hframe).
  destruct (proj1 (elem_of_dom _ _) Ha) as [la Hla].
  destruct (proj1 (elem_of_dom _ _) Hb) as [lb Hlb].
  assert (HI0 : I ≠ ∅).
  { destruct Hends as [[_ Hin] | [_ Hin]]; by eapply non_empty_inhabited_L. }
  revert Hpres. unfold write_edge.
  rewrite (bind_ok _ _ _ _ _ (registered_ends_run _ _ _ _ _ _ Hs eq_refl Ha Hb)).
  rewrite (write_candidate_run _ _ _ _ _ _ _ _ _ _ _ _ Hla Hlb HI HNI).
  rewrite (bool_decide_false (I = ∅)) by done.
  destruct Hends as [[-> Hin] | [-> Hin]].
  - rewrite (bool_decide_false (id ea ∈ I)), (bool_decide_true (id eb ∈ I)) by done.
    intros Hpres. split; [done|]. exists (NI ∪ {[id ea]}). simpl.
    rewrite lookup_insert_eq. split; [done|].
    apply elem_of_union. right. by apply elem_of_singleton.
  - rewrite (bool_decide_true (id ea ∈ I)), (bool_decide_false (id eb ∈ I)) by done.
    intros Hpres. split; [done|]. exists (NI ∪ {[id eb]}). simpl.
    rewrite lookup_insert_eq. split; [done|].
    apply elem_of_union. right. by apply elem_of_singleton.
Qed.

Lemma write_relationship_adds_end (reg : gmap Z string) S0 l nl I D ifc_rel s vs
    ea eb x σ0 :
  S0 !! l = Some I → l ≠ nl →
  (decompose ifc_rel σ0).1 = Ok s → relating_object s = PyInstance ea →
  (iter (related_objects s) σ0).1 = Ok vs → PyInstance eb ∈ vs →
  id ea ∈ dom reg → id eb ∈ dom reg →
  (x = id ea ∧ id eb ∈ I) ∨ (x = id eb ∧ id ea ∈ I) → x ∉ I →
  triple (edges_inv reg S0 nl I D) (write_relationship reg l nl ifc_rel)
         (λ _ σ, edges_inv reg S0 nl I D σ ∧ next_interest_has nl x σ)
         (edges_inv reg S0 nl I D).
Proof.
  intros Hl Hne Hdec Hs Hiter Hin Ha Hb Hends Hx τ HP. unfold write_relationship.
  rewrite (bind_ok _ _ _ _ _ (stateless_run _ _ _ (stateless_decompose _) Hdec τ)).
  rewrite (bind_ok _ _ _ _ _ (stateless_run _ _ _ (stateless_iter _) Hiter τ)).
  revert τ HP. apply (triple_for_each_reaches _ _ _ _ (PyInstance eb)); [done|..].
  - intros v. by apply write_edge_preserves.
  - intros v. unfold write_edge.
    eapply triple_bind; [apply preserves_pure, pure_registered_ends|].
    intros [[a b]|]; [apply write_candidate_keeps_id | by apply triple_ret].
  - by apply (write_edge_adds_end reg S0 l nl I D s ea eb x).
Qed.

Lemma write_dot_registry ifc_file l I σ :
  sets σ !! l = Some I →
  let nl := fresh (dom (sets σ)) in
  write_dot ifc_file l σ
  = (write_relationships ifc_file (ifc_objects_of ifc_file) l nl >>
     write_clusters ifc_file (ifc_objects_of ifc_file) l >>
     dot_write (Line "}") >> ret nl)
      (State (<[nl := I]> (sets σ))
             ([Line "strict graph G {";
               Line "graph [overlap=false,splines=true,rankdir=LR];"]
              ++ node_stmts I (self <$> by_type ifc_file "IfcObject"))).
Proof.
  intros HI nl. unfold write_dot.
  rewrite (bind_ok _ _ _ _ _ (set_copy_run _ _ _ HI)). fold nl.
  assert (Hnl : l ≠ nl) by by eapply fresh_loc_ne.
  set (header := [Line "strict graph G {";
                  Line "graph [overlap=false,splines=true,rankdir=LR];"]).
  set (rest := let! ifc_objects := write_objects ifc_file l in
               write_relationships ifc_file ifc_objects l nl >>
               write_clusters ifc_file ifc_objects l >>
               dot_write (Line "}") >> ret nl).
  change (rest (State (<[nl := I]> (sets σ)) header) = 
          (write_relationships ifc_file (ifc_objects_of ifc_file) l nl >>
           write_clusters ifc_file (ifc_objects_of ifc_file) l >>
           dot_write (Line "}") >> ret nl)
            (State (<[nl := I]> (sets σ))
               (header ++ node_stmts I (self <$> by_type ifc_file "IfcObject")))).
  unfold rest.
  rewrite (bind_ok _ _ _ _ _ (write_objects_run ifc_file l I
             (State (<[nl := I]> (sets σ)) header)
             ltac:(by simpl; rewrite lookup_insert_ne))).
  done.
Qed.

(** C8. An [IfcObject] of the file that is not virtual and whose id is not
    in a non-empty interest set is still registered by the call.  The first
    loop returns the registry; the second and third loops of the call run
    with this registry, from a state that holds the node statements of the
    objects of interest; the node's id is a key of the registry, and with
    distinct ids the entry is its label.  The entry resolves edges: when a
    relationship of the file joins the node to a registered id of interest,
    in either direction, the set returned by the call holds the node's id.
    No node statement of the output names the node. *)
Theorem uninteresting_node_registered ifc_file l I σ i :
  sets σ !! l = Some I → I ≠ ∅ →
  i ∈ ifc_file → is_a (self i) "IfcObject" = true →
  is_a (self i) "IfcVirtualElement" = false →
  id (self i) ∉ I →
  let ifc_objects := ifc_objects_of ifc_file in
  let nl := fresh (dom (sets σ)) in
  let run := write_dot ifc_file l σ in
  (∀ σ', sets σ' !! l = Some I → (write_objects ifc_file l σ').1 = Ok ifc_objects)
  ∧ run = (write_relationships ifc_file ifc_objects l nl >>
           write_clusters ifc_file ifc_objects l >>
           dot_write (Line "}") >> ret nl)
            (State (<[nl := I]> (sets σ))
                   ([Line "strict graph G {";
                     Line "graph [overlap=false,splines=true,rankdir=LR];"]
                    ++ node_stmts I (self <$> by_type ifc_file "IfcObject")))
  ∧ id (self i) ∈ dom ifc_objects
  ∧ (NoDup (id ∘ self <$> ifc_file) → ifc_objects !! id (self i) = Some (label_of (self i)))
  ∧ (∀ r s vs ea eb,
       r ∈ ifc_file → is_a (self r) "IfcRelationship" = true →
       (decompose r σ).1 = Ok s → relating_object s = PyInstance ea →
       (iter (related_objects s) σ).1 = Ok vs → PyInstance eb ∈ vs →
       (id ea = id (self i) ∧ id eb ∈ I ∧ id eb ∈ dom ifc_objects)
       ∨ (id eb = id (self i) ∧ id ea ∈ I ∧ id ea ∈ dom ifc_objects) →
       run.1 = Ok nl →
       ∃ NI, sets run.2 !! nl = Some NI ∧ id (self i) ∈ NI)
  ∧ ∀ s, s ∈ dot run.2 → is_node_stmt s = true → id (self i) ∉ stmt_ids s.
Proof.
  intros HI Hne Hi Hobj Hv HnI ifc_objects nl run.
  assert (Hin : self i ∈ self <$> by_type ifc_file "IfcObject").
  { apply list_elem_of_fmap. exists i. split; [done|].
    apply list_elem_of_filter. split; [by apply Is_true_true | done]. }
  assert (Hreg : id (self i) ∈ dom ifc_objects) by by apply registry_dom.
  assert (Hnl : l ≠ nl) by by eapply fresh_loc_ne.
  split; [|split; [|split; [|split; [|split]]]].
  - intros σ' HI'. by rewrite (write_objects_run _ _ _ _ HI').
  - by apply write_dot_registry.
  - done.
  - intros Hnd. apply registry_unique; [|done..].
    rewrite <- list_fmap_compose.
    eapply sublist_NoDup; [exact Hnd|]. apply fmap_sublist, sublist_filter.
  - intros r s vs ea eb Hr Hrel Hdec Hs Hiter Heb Hends. subst run.
    rewrite (write_dot_registry ifc_file l I σ HI). fold nl ifc_objects.
    set (S1 := <[nl := I]> (sets σ)).
    set (D := [Line "strict graph G {";
               Line "graph [overlap=false,splines=true,rankdir=LR];"]
              ++ node_stmts I (self <$> by_type ifc_file "IfcObject")).
    assert (HS1 : S1 !! l = Some I) by (by unfold S1; rewrite lookup_insert_ne).
    assert (H0 : edges_inv ifc_objects S1 nl I D (State S1 D)).
    { split; [done|]. split; [|apply appends_refl].
      exists I. simpl. unfold S1. rewrite lookup_insert_eq.
      split; [done|]. split; [done | apply union_subseteq_l]. }
    assert (Hends' : id ea ∈ dom ifc_objects ∧ id eb ∈ dom ifc_objects
                     ∧ ((id (self i) = id ea ∧ id eb ∈ I)
                        ∨ (id (self i) = id eb ∧ id ea ∈ I))).
    { destruct Hends as [(Ha & Hb & Hb') | (Hb & Ha & Ha')].
      - rewrite Ha. split; [done|]. split; [done|]. by left.
      - rewrite Hb. split; [done|]. split; [done|]. by right. }
    destruct Hends' as (Ha & Hb & Hx).
    assert (Hloop : triple (edges_inv ifc_objects S1 nl I D)
              (write_relationships ifc_file ifc_objects l nl)
              (λ _ σ', edges_inv ifc_objects S1 nl I D σ'
                       ∧ next_interest_has nl (id (self i)) σ')
              (edges_inv ifc_objects S1 nl I D)).
    { apply (triple_for_each_reaches _ _ _ _ r).
      - apply list_elem_of_filter. split; [by apply Is_true_true | done].
      - intros y. by apply write_relationship_preserves.
      - intros y. apply write_relationship_keeps_id.
      - by apply (write_relationship_adds_end ifc_objects S1 l nl I D r s vs ea eb
                    (id (self i)) σ). }
    specialize (Hloop (State S1 D) H0).
    destruct (write_relationships ifc_file ifc_objects l nl (State S1 D))
      as [[[]|e] σ3] eqn:E3.
    2:{ rewrite (bind_raise _ _ _ _ _ E3). by intros [=]. }
    rewrite (bind_ok _ _ _ _ _ E3). destruct Hloop as [_ (NI & HNI & Hx')].
    pose proof (write_clusters_preserves ifc_file ifc_objects (sets σ3) (dot σ3) l σ3
                  (conj eq_refl (appends_refl _ _))) as H4.
    unfold bind.
    destruct (write_clusters ifc_file ifc_objects l σ3) as [[[]|e] σ4];
      destruct H4 as (Hsets & _); [|by intros [=]].
    intros _. simpl. rewrite Hsets. by exists NI.
  - intros s Hs Hnode Hids.
    destruct (write_dot_outcome ifc_file l I σ HI) as (_ & _ & _ & ext & Hdot & Hext).
    fold run in Hdot. rewrite Hdot in Hs.
    apply elem_of_app in Hs as [Hs | Hs]; [apply elem_of_app in Hs as [Hs | Hs]|].
    + repeat (apply elem_of_cons in Hs as [-> | Hs]); try done.
      by apply elem_of_nil in Hs.
    + apply node_stmts_elem in Hs as (o & _ & _ & [HI0 | HoI] & ->); [done|].
      apply list_elem_of_singleton in Hids. congruence.
    + rewrite Forall_forall in Hext.
      destruct (Hext s Hs) as [Hok | Hok]; by destruct s.
Qed.

End ifcdot.

(** ** The claims on the example models *)

Ltac by_compute :=
  first [ reflexivity
        | apply (proj1 (bool_decide_eq_true _)); vm_compute; reflexivity
        | apply (proj1 (bool_decide_eq_false _)); vm_compute; reflexivity ].

(** C7. On a site that aggregates a type object the third loop raises
    [KeyError]: the child is not virtual, it is not a key of the registry,
    and [cluster] looks its label up without testing for the key.  The
    second loop met the same reference and skipped it. *)
Theorem cluster_unregistered_child_raises :
  let ifc_objects := ifc_objects_of ifc4 typed_site in
  let run := write_dot ifc4 typed_site_decomposition 1000 typed_site 0%nat (store_with ∅) in
  is_a ifc4 walltype2 "IfcVirtualElement" = false
  ∧ ifc_objects !! id walltype2 = None
  ∧ write_relationships ifc4 typed_site ifc_objects 0%nat 0%nat (store_with ∅)
    = (Ok tt, store_with ∅)
  ∧ (write_clusters ifc4 typed_site_decomposition 1000 typed_site ifc_objects 0%nat
       (store_with ∅)).1 = Raise KeyError
  ∧ run.1 = Raise KeyError.
Proof. repeat split; vm_compute; reflexivity. Qed.

Lemma interest_filter_cases_witness :
  let ifc_objects := ifc_objects_of ifc4 pair in
  let s := Shape (PyInstance wall3) (Attr (PyTuple [slab7])) "9" "solid" in
  let edge := EdgeStmt 3 7 "#3=IfcWall" "#7=IfcSlab" "9" "solid" in
  let σ (I : gset Z) := State {[ 0%nat := I; 1%nat := I ]} [] in
  write_edge ifc_objects 0%nat 1%nat s (PyInstance slab7) (σ ∅)
    = (Ok tt, State (sets (σ ∅)) [edge])
  ∧ write_edge ifc_objects 0%nat 1%nat s (PyInstance slab7) (σ {[9%Z]})
    = (Ok tt, σ {[9%Z]})
  ∧ write_edge ifc_objects 0%nat 1%nat s (PyInstance slab7) (σ {[3%Z]})
    = (Ok tt, State (<[1%nat := {[3%Z]} ∪ {[7%Z]}]> (sets (σ {[3%Z]}))) [])
  ∧ write_edge ifc_objects 0%nat 1%nat s (PyInstance slab7) (σ {[7%Z]})
    = (Ok tt, State (<[1%nat := {[7%Z]} ∪ {[3%Z]}]> (sets (σ {[7%Z]}))) [])
  ∧ write_edge ifc_objects 0%nat 1%nat s (PyInstance slab7) (σ {[3%Z; 7%Z]})
    = (Ok tt, State (sets (σ {[3%Z; 7%Z]})) [edge]).
Proof.
  intros ifc_objects s edge σ.
  pose (thm I := interest_filter_cases ifc_objects 0%nat 1%nat s (PyInstance slab7)
                   wall3 slab7 "#3=IfcWall" "#7=IfcSlab" I I (σ I)
                   eq_refl eq_refl eq_refl eq_refl eq_refl eq_refl).
  split; [|split; [|split; [|split]]].
  - apply (proj1 (thm ∅)). by_compute.
  - apply (proj1 (proj2 (thm {[9%Z]}))); by_compute.
  - apply (proj1 (proj2 (proj2 (thm {[3%Z]})))); by_compute.
  - apply (proj1 (proj2 (proj2 (proj2 (thm {[7%Z]}))))); by_compute.
  - apply (proj2 (proj2 (proj2 (proj2 (thm {[3%Z; 7%Z]}))))); by_compute.
Defined.

Lemma classifier_first_match_witness :
  fill_of ifc4 door4 = first_match ifc4 classify_chain door4
  ∧ fill_of ifc4 door4 ≠ "#9999ff"
  ∧ fill_of ifc4 door4 = "#99ccff"
  ∧ is_a ifc4 door4 "IfcElement" = true.
Proof.
  destruct (classifier_first_match ifc4 door4) as [Hchain Hdoor].
  destruct (Hdoor eq_refl) as [Hne Hcolour].
  split; [exact Hchain|]. split; [exact Hne|].
  split; [exact (Hcolour eq_refl eq_refl eq_refl eq_refl) | reflexivity].
Defined.

Lemma decomposer_follows_table_witness :
  let connects := Instance (Entity 14 "IfcRelConnectsElements")
      [("RelatingElement", PyInstance slab7); ("RelatedElement", PyInstance window8)] in
  let defines := Instance (Entity 15 "IfcRelDefinesByType") [] in
  decompose ifc4 connects (store_with ∅)
    = (Ok (Shape (PyInstance slab7) (Listed [PyInstance window8]) "9" "dashed"),
       store_with ∅)
  ∧ write_relationship ifc4 ∅ 0%nat 0%nat defines (store_with ∅) = (Ok tt, store_with ∅).
Proof.
  intros connects defines.
  destruct (decomposer_follows_table ifc4 connects (store_with ∅)) as [Htable _].
  destruct (decomposer_follows_table ifc4 defines (store_with ∅))
    as (_ & _ & _ & _ & Hnone).
  split.
  - apply (Htable (Row "IfcRelConnectsElements" "RelatingElement" "RelatedElement"
                       false true "dashed") (PyInstance slab7) (PyInstance window8)).
    + unfold decomposition_table. do 3 right. left.
    + reflexivity.
    + intros r' Hr' Hkind. unfold decomposition_table in Hr'.
      repeat (apply elem_of_cons in Hr' as [-> | Hr']);
        try reflexivity; try discriminate Hkind.
      by apply elem_of_nil in Hr'.
    + reflexivity.
    + reflexivity.
  - apply Hnone. intros (r & Hr & Hkind). unfold decomposition_table in Hr.
    repeat (apply elem_of_cons in Hr as [-> | Hr]); try discriminate Hkind.
    by apply elem_of_nil in Hr.
Defined.

Lemma next_interest_superset_witness :
  let run := write_dot ifc4 house_decomposition 1000 house 0%nat (store_with {[3%Z]}) in
  sets run.2 !! 0%nat = Some {[3%Z]}
  ∧ run.1 = Ok 1%nat
  ∧ ∃ NI, sets run.2 !! 1%nat = Some NI ∧ ({[3%Z]} : gset Z) ⊆ NI.
Proof.
  intros run.
  destruct (next_interest_superset ifc4 house_decomposition 1000 house 0%nat {[3%Z]}
              (store_with {[3%Z]}) eq_refl) as (Hsame & _ & Hnew).
  split; [exact Hsame|]. split; [reflexivity|].
  destruct (Hnew 1%nat eq_refl) as (_ & _ & HNI). exact HNI.
Defined.

Lemma frontier_is_registered_witness :
  (5%Z ∈ dom (ifc_objects_of ifc4 house))
  ∧ ∃ i, i ∈ house ∧ id (self i) = 5%Z
         ∧ is_a ifc4 (self i) "IfcObject" = true
         ∧ is_a ifc4 (self i) "IfcVirtualElement" = false.
Proof.
  destruct (frontier_is_registered ifc4 house_decomposition 1000 house 0%nat {[3%Z]}
              (store_with {[3%Z]}) 1%nat {[2%Z; 3%Z; 5%Z]} 5%Z)
    as (_ & Hdom & Hobj); try by_compute.
  split; [exact Hdom | exact Hobj].
Defined.

Lemma cluster_pruned_is_noop_witness :
  cluster ifc4 house_decomposition 1 site1 (ifc_objects_of ifc4 house) 0%nat
    (store_with {[3%Z]}) = (Ok tt, store_with {[3%Z]})
  ∧ sets (write_clusters ifc4 house_decomposition 1000 house (ifc_objects_of ifc4 house)
            0%nat (store_with ∅)).2 = sets (store_with ∅).
Proof.
  destruct (cluster_pruned_is_noop ifc4 house_decomposition 1000 house
              (ifc_objects_of ifc4 house) 0%nat {[3%Z]} (store_with {[3%Z]}) site1 0)
    as (Hnoop & _ & _).
  destruct (cluster_pruned_is_noop ifc4 house_decomposition 1000 house
              (ifc_objects_of ifc4 house) 0%nat ∅ (store_with ∅) site1 0)
    as (_ & _ & Hframe).
  split; [apply Hnoop; by_compute | exact Hframe].
Defined.

Lemma virtual_never_emitted_witness :
  let out := dot (write_dot ifc4 house_decomposition 1000 house 0%nat (store_with ∅)).2 in
  ifc_objects_of ifc4 house !! 6%Z = None
  ∧ (∀ s, s ∈ out → label_of virtual6 ∉ stmt_labels s)
  ∧ (∀ s, s ∈ out → 6%Z ∉ stmt_ids s).
Proof.
  intros out.
  destruct (virtual_never_emitted ifc4 house_decomposition 1000 house 0%nat ∅
              (store_with ∅) virtual6 eq_refl eq_refl) as (_ & _ & Hlabels & Hids).
  destruct Hids as [Hreg Hstmts].
  - unfold house. do 5 right. left.
  - apply (proj1 (bool_decide_spec _)). vm_compute. exact I.
  - split; [exact Hreg|]. split; [exact Hlabels | exact Hstmts].
Defined.

Lemma uninteresting_node_registered_witness :
  let σ := store_with {[3%Z]} in
  let run := write_dot ifc4 house_decomposition 1000 house 0%nat σ in
  ifc_objects_of ifc4 house !! 5%Z = Some "#5=IfcOpeningElement"
  ∧ (∃ NI, sets run.2 !! fresh (dom (sets σ)) = Some NI ∧ 5%Z ∈ NI)
  ∧ ∀ s, s ∈ dot run.2 → is_node_stmt s = true → 5%Z ∉ stmt_ids s.
Proof.
  intros σ run.
  destruct (uninteresting_node_registered ifc4 house_decomposition 1000 house 0%nat
              {[3%Z]} σ (Instance opening5 []))
    as (_ & _ & _ & Hlabel & Hedge & Hnode); try by_compute.
  - unfold house. do 4 right. left.
  - split; [|split; [|exact Hnode]].
    + apply Hlabel. apply (proj1 (bool_decide_spec _)). vm_compute. exact I.
    + apply (Hedge (Instance (Entity 12 "IfcRelVoidsElement")
                      [("RelatingBuildingElement", PyInstance wall3);
                       ("RelatedOpeningElement", PyInstance opening5)])
                   (Shape (PyInstance wall3) (Listed [PyInstance opening5]) "9" "solid")
                   [PyInstance opening5] wall3 opening5); try by_compute.
      * unfold house. do 10 right. left.
      * left.
Defined.

(** C3 as stated fails for the empty interest set: the first call returns an
    empty set, so the loop stops at once with the whole graph as output,
    while no id is reachable from the empty set. *)
Lemma expansion_from_empty_interest_counterexample :
  ∃ lf σf,
    (∀ rounds,
       expand ifc4 no_decomposition 1000 rounds pair 0%nat (store_with ∅) = (Ok lf, σf))
    ∧ dot σf = dot (write_dot ifc4 no_decomposition 1000 pair 0%nat (store_with ∅)).2
    ∧ NodeStmt 3 "#3=IfcWall" "#9999ff" ∈ dot σf
    ∧ ¬ restricted_to_reachable
          (dot (write_dot ifc4 no_decomposition 1000 pair 0%nat (store_with ∅)).2)
          ∅ (dot σf).
Proof.
  destruct (write_dot ifc4 no_decomposition 1000 pair 0%nat (store_with ∅))
    as [r σ1] eqn:E.
  assert (Hr : r = Ok 1%nat) by (by vm_compute in E; injection E as <- _).
  assert (Hsets : sets σ1 = {[ 0%nat := ∅; 1%nat := ∅ ]})
    by (by vm_compute in E; injection E as _ <-).
  assert (Hnode : NodeStmt 3 "#3=IfcWall" "#9999ff" ∈ dot σ1).
  { vm_compute in E. injection E as _ <-. simpl. do 2 right. left. }
  subst r. exists 1%nat, σ1. split; [|split; [done|split; [done|]]].
  - intros rounds. rewrite expand_unfold, (bind_ok _ _ _ _ _ E).
    assert (Heq : set_eq 1%nat 0%nat σ1 = (Ok true, σ1)).
    { unfold set_eq. by rewrite Hsets. }
    by rewrite (bind_ok _ _ _ _ _ Heq).
  - intros Hclaim.
    destruct (proj1 (Hclaim (NodeStmt 3 "#3=IfcWall" "#9999ff") eq_refl) Hnode)
      as [_ Hreach].
    assert (Hnone : ∀ x, ¬ reachable (dot σ1) ∅ x).
    { intros x. induction 1 as [x Hx|]; [by apply not_elem_of_empty in Hx | done]. }
    apply (Hnone 3%Z), Hreach. by left.
Qed.

Lemma expansion_reaches_component_witness :
  let full := dot (write_dot ifc4 house_decomposition 1000 house 0%nat (store_with ∅)).2 in
  ∃ rounds lf σf C,
    expand ifc4 house_decomposition 1000 rounds house 0%nat (store_with {[7%Z]})
    = (Ok lf, σf)
    ∧ sets σf !! lf = Some C
    ∧ (∀ x, x ∈ C ↔ reachable full {[7%Z]} x)
    ∧ restricted_to_reachable full {[7%Z]} (dot σf).
Proof.
  apply (expansion_reaches_component ifc4 house_decomposition 1000 house 0%nat
           {[7%Z]} (store_with {[7%Z]}) 0%nat (store_with ∅) 1%nat); by_compute.
Defined.

(** ** The further properties on the example models *)

Lemma unfiltered_call_adds_nothing_witness :
  sets (write_dot ifc4 house_decomposition 1000 house 0%nat (store_with ∅)).2
  = <[1%nat := ∅]> (sets (store_with ∅))
  ∧ sets (write_dot ifc4 house_decomposition 1000 house 0%nat (store_with ∅)).2 !! 1%nat
    = Some ∅.
Proof.
  destruct (unfiltered_call_adds_nothing ifc4 house_decomposition 1000 house 0%nat
              (store_with ∅) eq_refl) as [Hstore Hnew].
  split; [exact Hstore | apply Hnew; reflexivity].
Defined.

Lemma filtered_call_one_hop_witness :
  ∃ nl NI,
    (write_dot ifc4 house_decomposition 1000 house 0%nat (store_with {[3%Z]})).1 = Ok nl
    ∧ sets (write_dot ifc4 house_decomposition 1000 house 0%nat (store_with {[3%Z]})).2
        !! nl = Some NI
    ∧ ∀ x, x ∈ NI ↔
           x ∈ ({[3%Z]} : gset Z)
           ∨ ∃ a, a ∈ ({[3%Z]} : gset Z)
                  ∧ adjacent
                      (dot (write_dot ifc4 house_decomposition 1000 house 0%nat
                              (store_with ∅)).2) a x.
Proof.
  apply (filtered_call_one_hop ifc4 house_decomposition 1000 house 0%nat
           (store_with ∅) 1%nat 0%nat {[3%Z]} (store_with {[3%Z]})); by_compute.
Defined.

Lemma filtered_call_induced_subgraph_witness :
  filter (λ s, node_or_edge s)
    (dot (write_dot ifc4 house_decomposition 1000 house 0%nat
            (store_with {[2%Z; 3%Z; 5%Z]})).2)
  = filter (λ s, node_or_edge s && in_interest {[2%Z; 3%Z; 5%Z]} s)
      (dot (write_dot ifc4 house_decomposition 1000 house 0%nat (store_with ∅)).2).
Proof.
  apply (filtered_call_induced_subgraph ifc4 house_decomposition 1000 house 0%nat
           (store_with ∅) 1%nat 0%nat {[2%Z; 3%Z; 5%Z]}
           (store_with {[2%Z; 3%Z; 5%Z]})); by_compute.
Defined.

Lemma larger_interest_extends_output_witness :
  filter (λ s, node_or_edge s)
    (dot (write_dot ifc4 house_decomposition 1000 house 0%nat (store_with {[3%Z]})).2)
  = filter (λ s, node_or_edge s && in_interest {[3%Z]} s)
      (dot (write_dot ifc4 house_decomposition 1000 house 0%nat
              (store_with {[2%Z; 3%Z; 5%Z]})).2)
  ∧ (write_dot ifc4 typed_site_decomposition 1000 typed_site 0%nat
       (store_with {[1%Z; 2%Z]})).1 = Raise KeyError
  ∧ filter (λ s, node_or_edge s)
      (dot (write_dot ifc4 typed_site_decomposition 1000 typed_site 0%nat
              (store_with {[1%Z]})).2)
    = filter (λ s, node_or_edge s && in_interest {[1%Z]} s)
        (dot (write_dot ifc4 typed_site_decomposition 1000 typed_site 0%nat
                (store_with {[1%Z; 2%Z]})).2).
Proof.
  split; [|split].
  - apply (larger_interest_extends_output ifc4 house_decomposition 1000 house
             0%nat {[3%Z]} (store_with {[3%Z]})
             0%nat {[2%Z; 3%Z; 5%Z]} (store_with {[2%Z; 3%Z; 5%Z]})); by_compute.
  - vm_compute. reflexivity.
  - apply (larger_interest_extends_output ifc4 typed_site_decomposition 1000 typed_site
             0%nat {[1%Z]} (store_with {[1%Z]})
             0%nat {[1%Z; 2%Z]} (store_with {[1%Z; 2%Z]})); by_compute.
Defined.

Lemma unset_reference_raises_witness :
  write_relationship ifc4 (ifc_objects_of ifc4 pair) 0%nat 0%nat
    (Instance (Entity 30 "IfcRelAggregates")
       [("RelatingObject", PyNone); ("RelatedObjects", PyTuple [slab7])])
    (store_with ∅)
  = (Raise AttributeError, store_with ∅)
  ∧ write_relationship ifc4 (ifc_objects_of ifc4 pair) 0%nat 0%nat
      (Instance (Entity 31 "IfcRelAggregates")
         [("RelatingObject", PyInstance wall3); ("RelatedObjects", PyNone)])
      (store_with ∅)
    = (Raise TypeError, store_with ∅).
Proof.
  split.
  - apply (proj1 (unset_reference_raises ifc4 (ifc_objects_of ifc4 pair) 0%nat 0%nat
                    (Instance (Entity 30 "IfcRelAggregates")
                       [("RelatingObject", PyNone); ("RelatedObjects", PyTuple [slab7])])
                    (Shape PyNone (Attr (PyTuple [slab7])) "9" "solid")
                    (store_with ∅) eq_refl) eq_refl (PyInstance slab7) []).
    reflexivity.
  - apply (proj2 (unset_reference_raises ifc4 (ifc_objects_of ifc4 pair) 0%nat 0%nat
                    (Instance (Entity 31 "IfcRelAggregates")
                       [("RelatingObject", PyInstance wall3); ("RelatedObjects", PyNone)])
                    (Shape (PyInstance wall3) (Attr PyNone) "9" "solid")
                    (store_with ∅) eq_refl)).
    reflexivity.
Defined.

Lemma unset_related_end_witness :
  write_edge ∅ 0%nat 0%nat (Shape (PyInstance wall3) (Listed [PyNone]) "9" "solid")
    PyNone (store_with ∅) = (Ok tt, store_with ∅)
  ∧ write_edge (ifc_objects_of ifc4 pair) 0%nat 0%nat
      (Shape (PyInstance wall3) (Listed [PyNone]) "9" "solid") PyNone (store_with ∅)
    = (Raise AttributeError, store_with ∅).
Proof.
  split.
  - apply (proj1 (unset_related_end ∅ 0%nat 0%nat
                    (Shape (PyInstance wall3) (Listed [PyNone]) "9" "solid")
                    wall3 (store_with ∅) eq_refl)).
    by_compute.
  - apply (proj2 (unset_related_end (ifc_objects_of ifc4 pair) 0%nat 0%nat
                    (Shape (PyInstance wall3) (Listed [PyNone]) "9" "solid")
                    wall3 (store_with ∅) eq_refl)).
    by_compute.
Defined.

Lemma unfiltered_relationship_edges_witness :
  write_relationship ifc4 (ifc_objects_of ifc4 house) 0%nat 0%nat
    (Instance (Entity 11 "IfcRelContainedInSpatialStructure")
       [("RelatingStructure", PyInstance building2);
        ("RelatedElements", PyTuple [wall3; door4; virtual6])])
    (store_with ∅)
  = (Ok tt,
     State (sets (store_with ∅))
       [EdgeStmt 2 3 "#2=IfcBuilding" "#3=IfcWall" "1" "solid";
        EdgeStmt 2 4 "#2=IfcBuilding" "#4=IfcDoor" "1" "solid"]).
Proof.
  apply (unfiltered_relationship_edges ifc4 (ifc_objects_of ifc4 house) 0%nat 0%nat
           (Instance (Entity 11 "IfcRelContainedInSpatialStructure")
              [("RelatingStructure", PyInstance building2);
               ("RelatedElements", PyTuple [wall3; door4; virtual6])])
           (Shape (PyInstance building2) (Attr (PyTuple [wall3; door4; virtual6]))
                  "1" "solid")
           building2 [wall3; door4; virtual6] (store_with ∅));
    reflexivity.
Defined.

Lemma last_label_wins_witness :
  ∃ ifc_objects σ',
    for_fold ([wall3] ++ Entity 3 "IfcSlab" :: [slab7]) ∅ (write_object ifc4 0%nat)
      (store_with ∅) = (Ok ifc_objects, σ')
    ∧ ifc_objects !! 3%Z = Some "#3=IfcSlab".
Proof.
  apply (last_label_wins ifc4 0%nat ∅ (store_with ∅) [wall3] (Entity 3 "IfcSlab") [slab7]).
  - reflexivity.
  - reflexivity.
  - intros o' Ho' _. apply list_elem_of_singleton in Ho'. rewrite Ho'. simpl. lia.
Defined.

Lemma cyclic_decomposition_never_returns_witness :
  (cluster ifc4 self_decomposition 1000 site1 (ifc_objects_of ifc4 house) 0%nat
     (store_with ∅)).1 ≠ Ok tt.
Proof.
  apply (cyclic_decomposition_never_returns ifc4 self_decomposition
           (ifc_objects_of ifc4 house) 0%nat ∅ (store_with ∅) site1 1000).
  - unfold self_decomposition. apply list_elem_of_singleton. reflexivity.
  - reflexivity.
  - reflexivity.
  - left. reflexivity.
Defined.

Lemma returning_call_layout_witness :
  level (dot (write_dot ifc4 house_decomposition 1000 house 0%nat (store_with ∅)).2)
  = Some 0.
Proof.
  apply (returning_call_layout ifc4 house_decomposition 1000 house 0%nat ∅
           (store_with ∅) 1%nat); reflexivity.
Defined.

Lemma write_dot_returns_witness :
  (write_dot ifc4 house_decomposition 4 house 0%nat (store_with {[3%Z]})).1 = Ok 1%nat.
Proof.
  apply (write_dot_returns ifc4 house_decomposition 4 house 0%nat {[3%Z]}
           (store_with {[3%Z]}) house_rank).
  - reflexivity.
  - intros r Hr. vm_compute in Hr.
    repeat (apply elem_of_cons in Hr as [-> | Hr]); [..|by apply elem_of_nil in Hr].
    + exists (Shape (PyInstance site1) (Attr (PyTuple [building2])) "9" "solid"),
             [building2].
      repeat split; eauto.
    + exists (Shape (PyInstance building2) (Attr (PyTuple [wall3; door4; virtual6]))
                    "1" "solid"), [wall3; door4; virtual6].
      repeat split; eauto.
    + exists (Shape (PyInstance wall3) (Listed [PyInstance opening5]) "9" "solid"),
             [opening5].
      repeat split; eauto.
    + exists (Shape (PyInstance opening5) (Listed [PyInstance door4]) "9" "solid"),
             [door4].
      repeat split; eauto.
    + exists (Shape (PyInstance slab7) (Listed [PyInstance window8]) "9" "dashed"),
             [window8].
      repeat split; eauto.
    + exists (Shape PyNone (Listed []) "1" "solid"), [].
      repeat split; eauto.
  - intros e c Hc Hv. unfold house_decomposition, house_rank in *.
    destruct (id e =? 1)%Z; [|destruct (id e =? 2)%Z; [|destruct (id e =? 3)%Z]];
      repeat (apply elem_of_cons in Hc as [-> | Hc]);
      try (by apply elem_of_nil in Hc); try discriminate Hv;
      (split; [by_compute | vm_compute; lia]).
  - intros i Hi. vm_compute in Hi.
    apply elem_of_cons in Hi as [-> | Hi]; [|by apply elem_of_nil in Hi].
    split; [vm_compute; lia | intros _; by_compute].
Defined.

Lemma objects_of_interest_drawn_witness :
  NodeStmt 4 "#4=IfcDoor" "#99ccff"
    ∈ dot (write_dot ifc4 house_decomposition 1000 house 0%nat (store_with {[4%Z]})).2.
Proof.
  apply (objects_of_interest_drawn ifc4 house_decomposition 1000 house 0%nat {[4%Z]}
           (store_with {[4%Z]}) (Instance door4 [])).
  - reflexivity.
  - unfold house. do 3 right. left.
  - reflexivity.
  - reflexivity.
  - right. by_compute.
Defined.

Lemma filtered_output_names_interest_witness :
  Forall (λ s, Forall (λ n, n ∈ ({[2%Z; 3%Z]} : gset Z)) (stmt_ids s))
    (dot (write_dot ifc4 house_decomposition 1000 house 0%nat
            (store_with {[2%Z; 3%Z]})).2).
Proof.
  apply Forall_forall. intros s Hs. apply Forall_forall. intros n Hn.
  apply (filtered_output_names_interest ifc4 house_decomposition 1000 house 0%nat
           {[2%Z; 3%Z]} (store_with {[2%Z; 3%Z]}) s n); first [by_compute | assumption].
Defined.
